(** * mlp.errors: error functions of the mlp training framework

    A shallow embedding of [mlp/errors.py] and the properties of its five
    error functions.

    Modelling decisions.

    - Scalars. The arrays of the source hold float64 numbers; here an
      entry is a real number [R] and [+], [*], [/], [exp], [log], [sqrt]
      are the real operations.  Rounding, [inf] and [nan] are outside the
      model: where numpy would produce [inf] or [nan] (logarithm of a
      non-positive number, division by zero, mean of an empty array) the
      model holds whatever the total real function of the Standard
      Library gives there.
    - Arrays. [outputs] and [targets] are 2-D arrays of shape
      [(batch_size, output_dim)], held row-major as a list of rows.  The
      shape is read off the data: the row count is the length of the
      list, the column count the length of the first row, so an array
      without rows has shape [(0, 0)].  [is_ndarray] says that all rows
      have the same length.
    - numpy. Elementwise binary operators follow numpy's broadcasting
      rule and raise [ValueError] when the shapes cannot be broadcast;
      [max] along an axis of length zero and [concatenate] of an empty
      sequence raise [ValueError] as well.
    - Python. A method returns a [result]: either a value or the
      exception that escaped.  Evaluation order is the order of the
      binds. *)

From Stdlib Require Import String.
From Stdlib Require Import Reals List Arith Bool Lia Lra.
Import ListNotations.

Open Scope string_scope.
Open Scope list_scope.
Open Scope R_scope.

(** ** Exceptions and results *)

Inductive exn : Type :=
| NameError (name : string)
| TypeError (msg : string)
| ValueError (msg : string).

Inductive result (A : Type) : Type :=
| Ok (a : A)
| Raise (e : exn).

Arguments Ok {A} a.
Arguments Raise {A} e.

Definition bind {A B : Type} (r : result A) (k : A -> result B) : result B :=
  match r with
  | Ok a => k a
  | Raise e => Raise e
  end.

Definition fmap {A B : Type} (f : A -> B) (r : result A) : result B :=
  bind r (fun a => Ok (f a)).

Notation "x <- r ;; k" := (bind r (fun x => k))
  (at level 61, r at next level, right associativity).

(** ** Lists of reals *)

Fixpoint map2 {A B C : Type} (f : A -> B -> C) (l1 : list A) (l2 : list B)
  : list C :=
  match l1, l2 with
  | x :: l1', y :: l2' => f x y :: map2 f l1' l2'
  | _, _ => []
  end.

Definition Rsum (v : list R) : R := fold_right Rplus 0 v.

(** ** 2-D arrays *)

Definition vector := list R.
Definition ndarray := list (list R).

Definition nrows (a : ndarray) : nat := length a.

Definition ncols (a : ndarray) : nat :=
  match a with
  | [] => 0%nat
  | r :: _ => length r
  end.

Definition shape (a : ndarray) : nat * nat := (nrows a, ncols a).

Definition is_ndarray (a : ndarray) : Prop :=
  Forall (fun r => length r = ncols a) a.

(** [a.size] *)
Definition size (a : ndarray) : nat := length (concat a).

(** [a[i, j]] *)
Definition item (a : ndarray) (i j : nat) : R := nth j (nth i a []) 0.

(** The array of shape [(n, m)] whose entry [(i, j)] is [f i j]. *)
Definition tabulate (n m : nat) (f : nat -> nat -> R) : ndarray :=
  map (fun i => map (f i) (seq 0 m)) (seq 0 n).

(** *** Broadcasting *)

Definition broadcast_dim (d1 d2 : nat) : option nat :=
  if (d1 =? d2)%nat then Some d1
  else if (d1 =? 1)%nat then Some d2
  else if (d2 =? 1)%nat then Some d1
  else None.

Definition broadcast_shapes (s1 s2 : nat * nat) : option (nat * nat) :=
  match broadcast_dim (fst s1) (fst s2), broadcast_dim (snd s1) (snd s2) with
  | Some n, Some m => Some (n, m)
  | _, _ => None
  end.

(** [np.broadcast_to(a, (n, m))] for a shape that [a] broadcasts to: an
    axis of length one is repeated, any other axis is left as it is. *)
Definition broadcast_to (n m : nat) (a : ndarray) : ndarray :=
  let a' := if (ncols a =? 1)%nat
            then map (fun r => repeat (hd 0 r) m) a
            else a in
  if (nrows a =? 1)%nat then repeat (hd [] a') n else a'.

Definition broadcast_error : exn :=
  ValueError "operands could not be broadcast together".

(** An elementwise binary operator on two arrays. *)
Definition binop (f : R -> R -> R) (a b : ndarray) : result ndarray :=
  match broadcast_shapes (shape a) (shape b) with
  | Some (n, m) =>
      Ok (map2 (map2 f) (broadcast_to n m a) (broadcast_to n m b))
  | None => Raise broadcast_error
  end.

(** An in-place operator [a op= b]: the broadcast shape has to be the
    shape of [a]. *)
Definition inplace_binop (f : R -> R -> R) (a b : ndarray) : result ndarray :=
  match broadcast_shapes (shape a) (shape b) with
  | Some (n, m) =>
      if ((n =? nrows a) && (m =? ncols a))%nat
      then Ok (map2 (map2 f) a (broadcast_to n m b))
      else Raise (ValueError "non-broadcastable output operand")
  | None => Raise broadcast_error
  end.

(** An elementwise function, and an operator with a scalar operand. *)
Definition ufunc (f : R -> R) (a : ndarray) : ndarray := map (map f) a.

Definition np_exp : ndarray -> ndarray := ufunc exp.
Definition np_log : ndarray -> ndarray := ufunc ln.

(** [np.sum(a, axis=1)], [a.max(-1)], [v[:, None]], [np.mean] *)
Definition sum_axis1 (a : ndarray) : vector := map Rsum a.

Definition row_max (r : list R) : R :=
  match r with
  | [] => 0
  | x :: r' => fold_left Rmax r' x
  end.

Definition max_axis1 (a : ndarray) : result vector :=
  if (ncols a =? 0)%nat
  then Raise (ValueError
    "zero-size array to reduction operation maximum which has no identity")
  else Ok (map row_max a).

Definition column (v : vector) : ndarray := map (fun x => [x]) v.

Definition mean1 (v : vector) : R := Rsum v / INR (length v).

Definition np_mean (a : ndarray) : R := Rsum (concat a) / INR (size a).

(** *** Arrays of any rank, for the parameters of a model *)

Unset Elimination Schemes.
Inductive anyarray : Type :=
| Scalar (x : R)
| Axis (items : list anyarray).
Set Elimination Schemes.

(** [a.flatten()]: the entries in row-major order. *)
Fixpoint flatten (a : anyarray) : vector :=
  match a with
  | Scalar x => [x]
  | Axis items => flat_map flatten items
  end.

Definition np_concatenate (vs : list vector) : result vector :=
  match vs with
  | [] => Raise (ValueError "need at least one array to concatenate")
  | _ => Ok (concat vs)
  end.

(** [np.linalg.norm(v, 1)] and [np.linalg.norm(v, 2)] of a 1-D array. *)
Definition norm1 (v : vector) : R := Rsum (map Rabs v).
Definition norm2 (v : vector) : R := sqrt (Rsum (map (fun x => x * x) v)).

(** ** The model an error function may refer to *)

(** Modelled from the spec: the class of the model is not part of the
    module; the error function reads three attributes of it.  [params] is
    the ordered collection of parameter arrays, [regularizer] the
    regularizer kind ([None] or a string) and [regularizer_lambda] its
    coefficient. *)
Record Model : Type := {
  params : list anyarray;
  regularizer : option string;
  regularizer_lambda : R
}.

(** [x == 'L1'] for an attribute that is [None] or a string. *)
Definition py_eq (x : option string) (s : string) : bool :=
  match x with
  | Some x' => String.eqb x' s
  | None => false
  end.

(** ** Names *)

(** A method body reads its parameters from its own frame.  Any other
    name is looked up among the names the module binds, [np] and the
    five classes (none of them an array), and is unbound when it is not
    one of these. *)
Definition module_globals : list string :=
  ["np"; "SumOfSquaredDiffsError"; "BinaryCrossEntropyError";
   "BinaryCrossEntropySigmoidError"; "CrossEntropyError";
   "CrossEntropySoftmaxError"].

Definition frame := list (string * ndarray).

Fixpoint lookup (f : frame) (name : string) : option ndarray :=
  match f with
  | [] => None
  | (x, v) :: f' => if String.eqb x name then Some v else lookup f' name
  end.

(** The value of a name that is used as an operand of array arithmetic. *)
Definition load (locals : frame) (name : string) : result ndarray :=
  match lookup locals name with
  | Some v => Ok v
  | None =>
      if existsb (String.eqb name) module_globals
      then Raise (TypeError "unsupported operand type(s)")
      else Raise (NameError name)
  end.

(** ** The error functions *)

Module SumOfSquaredDiffsError.

Definition __call__ (outputs targets : ndarray) : result R :=
  d <- binop Rminus outputs targets ;;
  Ok (mean1 (sum_axis1 (ufunc (fun x => x ^ 2) d)) * 0.5).

Definition grad (outputs targets : ndarray) : result ndarray :=
  d <- binop Rminus outputs targets ;;
  Ok (ufunc (fun x => x / INR (fst (shape outputs))) d).

Definition __repr__ : string := "MeanSquaredErrorCost".

End SumOfSquaredDiffsError.

Module BinaryCrossEntropyError.

(** The body reads [ouputs], a name bound neither in the method nor in
    the module. *)
Definition __call__ (outputs targets : ndarray) : result R :=
  let locals : frame := [("outputs", outputs); ("targets", targets)] in
  t1 <- load locals "targets" ;;
  o1 <- load locals "outputs" ;;
  a <- binop Rmult t1 (np_log o1) ;;
  t2 <- load locals "targets" ;;
  let b1 := ufunc (fun x => 1 - x) t2 in
  o2 <- load locals "ouputs" ;;
  b <- binop Rmult b1 (np_log (ufunc (fun x => 1 - x) o2)) ;;
  s <- binop Rplus a b ;;
  Ok (- np_mean s).

Definition grad (outputs targets : ndarray) : result ndarray :=
  a <- binop Rdiv (ufunc (fun x => 1 - x) targets)
                  (ufunc (fun x => 1 - x) outputs) ;;
  b <- binop Rdiv targets outputs ;;
  d <- binop Rminus a b ;;
  Ok (ufunc (fun x => x / INR (fst (shape outputs))) d).

Definition __repr__ : string := "BinaryCrossEntropyError".

End BinaryCrossEntropyError.

Module BinaryCrossEntropySigmoidError.

(** [1. / (1. + np.exp(-outputs))] *)
Definition sigmoid (outputs : ndarray) : ndarray :=
  ufunc (fun x => 1 / x)
    (ufunc (fun x => 1 + x) (np_exp (ufunc Ropp outputs))).

Definition __call__ (outputs targets : ndarray) : result R :=
  let probs := sigmoid outputs in
  a <- binop Rmult targets (np_log probs) ;;
  b <- binop Rmult (ufunc (fun x => 1 - x) targets)
                   (np_log (ufunc (fun x => 1 - x) probs)) ;;
  s <- binop Rplus a b ;;
  Ok (- np_mean s).

Definition grad (outputs targets : ndarray) : result ndarray :=
  let probs := sigmoid outputs in
  d <- binop Rminus probs targets ;;
  Ok (ufunc (fun x => x / INR (fst (shape outputs))) d).

Definition __repr__ : string := "BinaryCrossEntropySigmoidError".

End BinaryCrossEntropySigmoidError.

Module CrossEntropyError.

Definition __call__ (outputs targets : ndarray) : result R :=
  p <- binop Rmult targets (np_log outputs) ;;
  Ok (- mean1 (sum_axis1 p)).

Definition grad (outputs targets : ndarray) : result ndarray :=
  q <- binop Rdiv targets outputs ;;
  Ok (ufunc (fun x => x / INR (fst (shape outputs))) (ufunc Ropp q)).

Definition __repr__ : string := "CrossEntropyError".

End CrossEntropyError.

Module CrossEntropySoftmaxError.

Record t : Type := __init__ { model : Model }.

Definition _get_weights (self : t) : result vector :=
  np_concatenate (map flatten (params (model self))).

(** The local variable [cost] as it is before the regularization
    branch. *)
Definition unregularized_cost (outputs targets : ndarray) : result R :=
  mx <- max_axis1 outputs ;;
  normalized_outputs <- binop Rminus outputs (column mx) ;;
  log_prob <- binop Rminus normalized_outputs
                (column (map ln (sum_axis1 (np_exp normalized_outputs)))) ;;
  p <- binop Rmult targets log_prob ;;
  Ok (- mean1 (sum_axis1 p)).

Definition __call__ (self : t) (outputs targets : ndarray) : result R :=
  cost <- unregularized_cost outputs targets ;;
  if py_eq (regularizer (model self)) "L1" then
    w <- _get_weights self ;;
    Ok (cost + regularizer_lambda (model self) * norm1 w)
  else if py_eq (regularizer (model self)) "L2" then
    w <- _get_weights self ;;
    Ok (cost + regularizer_lambda (model self) * norm2 w)
  else Ok cost.

Definition grad (self : t) (outputs targets : ndarray) : result ndarray :=
  mx <- max_axis1 outputs ;;
  e <- binop Rminus outputs (column mx) ;;
  let probs := np_exp e in
  probs <- inplace_binop Rdiv probs (column (sum_axis1 probs)) ;;
  d <- binop Rminus probs targets ;;
  Ok (ufunc (fun x => x / INR (fst (shape outputs))) d).

Definition __repr__ : string := "CrossEntropySoftmaxError".

End CrossEntropySoftmaxError.

(** ** The family of error functions *)

Inductive error_function : Type :=
| SumOfSquaredDiffs
| BinaryCrossEntropy
| BinaryCrossEntropySigmoid
| CrossEntropy
| CrossEntropySoftmax (self : CrossEntropySoftmaxError.t).

(** [error(outputs, targets)] *)
Definition value (error : error_function) (outputs targets : ndarray)
  : result R :=
  match error with
  | SumOfSquaredDiffs => SumOfSquaredDiffsError.__call__ outputs targets
  | BinaryCrossEntropy => BinaryCrossEntropyError.__call__ outputs targets
  | BinaryCrossEntropySigmoid =>
      BinaryCrossEntropySigmoidError.__call__ outputs targets
  | CrossEntropy => CrossEntropyError.__call__ outputs targets
  | CrossEntropySoftmax self =>
      CrossEntropySoftmaxError.__call__ self outputs targets
  end.

(** [error.grad(outputs, targets)] *)
Definition gradient (error : error_function) (outputs targets : ndarray)
  : result ndarray :=
  match error with
  | SumOfSquaredDiffs => SumOfSquaredDiffsError.grad outputs targets
  | BinaryCrossEntropy => BinaryCrossEntropyError.grad outputs targets
  | BinaryCrossEntropySigmoid =>
      BinaryCrossEntropySigmoidError.grad outputs targets
  | CrossEntropy => CrossEntropyError.grad outputs targets
  | CrossEntropySoftmax self =>
      CrossEntropySoftmaxError.grad self outputs targets
  end.

(** * Specification-side and auxiliary definitions *)

(** [has_shape n m a]: [a] has [n] rows, each of length [m]. *)
Definition has_shape (n m : nat) (a : ndarray) : Prop :=
  length a = n /\ Forall (fun r => length r = m) a.

(** An array combined with a column, as in [a - v[:, None]]. *)
Definition with_column (f : R -> R -> R) (a : ndarray) (v : vector)
  : ndarray :=
  map2 (fun r x => map (fun y => f y x) r) a v.

(** The sum of [f i] over [0 <= i < n]. *)
Definition big_sum (n : nat) (f : nat -> R) : R := Rsum (map f (seq 0 n)).

(** What the specification gives for the value and the gradient: the
    mean over the batch of half the sum of squared differences of a row,
    and the difference divided by the batch size. *)
Definition spec_sum_of_squared_diffs (outputs targets : ndarray) : R :=
  let n := nrows outputs in
  let m := ncols outputs in
  big_sum n (fun i =>
    0.5 * big_sum m (fun j => (item outputs i j - item targets i j) ^ 2))
  / INR n.

Definition spec_difference_grad (outputs targets : ndarray) : ndarray :=
  let n := nrows outputs in
  let m := ncols outputs in
  tabulate n m (fun i j => (item outputs i j - item targets i j) / INR n).

(** The binary cross-entropy of the specification:
    [-mean(targets*log(outputs) + (1-targets)*log(1-outputs))], the mean
    being over all entries. *)
Definition spec_binary_cross_entropy (outputs targets : ndarray) : R :=
  let n := nrows outputs in
  let m := ncols outputs in
  - (big_sum n (fun i => big_sum m (fun j =>
       item targets i j * ln (item outputs i j)
       + (1 - item targets i j) * ln (1 - item outputs i j)))
     / INR (n * m)).

Definition logistic (x : R) : R := 1 / (1 + exp (- x)).

(** [probs = 1/(1+exp(-outputs))], entry by entry. *)
Definition spec_sigmoid (outputs : ndarray) : ndarray :=
  tabulate (nrows outputs) (ncols outputs)
    (fun i j => logistic (item outputs i j)).

Definition spec_sigmoid_grad (outputs targets : ndarray) : ndarray :=
  let n := nrows outputs in
  let m := ncols outputs in
  tabulate n m
    (fun i j => (item (spec_sigmoid outputs) i j - item targets i j) / INR n).

Definition raises_ValueError {A : Type} (r : result A) : Prop :=
  exists msg, r = Raise (ValueError msg).

(** The softmax of the rows and its logarithm, as the two methods of
    CrossEntropySoftmaxError compute them. *)
Definition shifted_row (r : list R) : list R :=
  map (fun y => y - row_max r) r.

Definition softmax_row (r : list R) : list R :=
  let e := map exp (shifted_row r) in
  map (fun y => y / Rsum e) e.

Definition log_softmax_row (r : list R) : list R :=
  let s := shifted_row r in
  map (fun y => y - ln (Rsum (map exp s))) s.

Definition no_regularizer : Model :=
  {| params := []; regularizer := None; regularizer_lambda := 0 |}.

(** The loss of the specification, entry by entry:
    [normalized = outputs - max_per_row(outputs)],
    [log_prob = normalized - log(sum_per_row(exp(normalized)))] and
    [-mean_over_batch(sum_over_dim(targets * log_prob))]. *)
Definition spec_log_prob (outputs : ndarray) (i j : nat) : R :=
  let m := ncols outputs in
  let top := row_max (nth i outputs []) in
  (item outputs i j - top)
  - ln (big_sum m (fun k => exp (item outputs i k - top))).

Definition spec_cross_entropy_softmax (outputs targets : ndarray) : R :=
  let n := nrows outputs in
  let m := ncols outputs in
  - (big_sum n (fun i =>
       big_sum m (fun j => item targets i j * spec_log_prob outputs i j))
     / INR n).

(** The same model with another regularizer kind. *)
Definition with_regularizer (m : Model) (kind : option string) : Model :=
  {| params := params m;
     regularizer := kind;
     regularizer_lambda := regularizer_lambda m |}.

(** Two ways to duplicate every row of a batch: the batch followed by a
    copy of itself, as [np.concatenate([a, a])] gives, and every row
    followed by its copy, as [np.repeat(a, 2, axis=0)] gives. *)
Definition tile_batch {A : Type} (a : list A) : list A := a ++ a.

Definition repeat_rows {A : Type} (a : list A) : list A :=
  flat_map (fun r => [r; r]) a.

(** What the error functions need to know of a duplication [D]. *)
Record duplication (D : forall A : Type, list A -> list A) : Prop := {
  D_map : forall (A B : Type) (f : A -> B) (l : list A),
      map f (D A l) = D B (map f l);
  D_map2 : forall (A B C : Type) (f : A -> B -> C) (l1 : list A)
                  (l2 : list B),
      length l1 = length l2 ->
      map2 f (D A l1) (D B l2) = D C (map2 f l1 l2);
  D_length : forall (A : Type) (l : list A),
      length (D A l) = (2 * length l)%nat;
  D_Forall : forall (A : Type) (P : A -> Prop) (l : list A),
      Forall P l -> Forall P (D A l);
  D_Rsum : forall v : list R, Rsum (D R v) = 2 * Rsum v;
  D_concat_Rsum : forall a : ndarray,
      Rsum (concat (D (list R) a)) = 2 * Rsum (concat a);
  D_concat_length : forall a : ndarray,
      length (concat (D (list R) a)) = (2 * length (concat a))%nat
}.

(** The gradient of the doubled batch, from the gradient of the batch. *)
Definition halved (D : forall A : Type, list A -> list A) (g : ndarray)
  : ndarray :=
  D _ (ufunc (fun x => x / 2) g).




(** The softmax without the shift by the maximum: [exp(o_ij)] over the
    sum of [exp(o_ik)] along the row. *)
Definition plain_softmax (outputs : ndarray) (i j : nat) : R :=
  exp (item outputs i j)
  / big_sum (ncols outputs) (fun k => exp (item outputs i k)).

Definition plain_log_softmax (outputs : ndarray) (i j : nat) : R :=
  item outputs i j
  - ln (big_sum (ncols outputs) (fun k => exp (item outputs i k))).

(** Every entry of an array satisfies [P]. *)
Definition entries (P : R -> Prop) (a : ndarray) : Prop :=
  Forall (Forall P) a.

(** A regularizer kind for which [__call__] reads the parameters. *)
Definition reads_params (kind : option string) : bool :=
  py_eq kind "L1" || py_eq kind "L2".

(** The variant whose methods reduce [outputs] with [max] along the
    rows, which numpy refuses for rows of length zero. *)
Definition takes_row_max (error : error_function) : bool :=
  match error with
  | CrossEntropySoftmax _ => true
  | _ => false
  end.

(** The value and the gradient of the fused softmax cross-entropy,
    written with the softmax that is not shifted. *)
Definition spec_plain_cross_entropy_softmax (outputs targets : ndarray) : R :=
  let n := nrows outputs in
  let m := ncols outputs in
  - (big_sum n (fun i =>
       big_sum m (fun j => item targets i j * plain_log_softmax outputs i j))
     / INR n).

Definition spec_plain_softmax_grad (outputs targets : ndarray) : ndarray :=
  let n := nrows outputs in
  let m := ncols outputs in
  tabulate n m
    (fun i j => (plain_softmax outputs i j - item targets i j) / INR n).

(** One-hot targets: row [i] holds 1 in column [label i] and 0
    elsewhere. *)
Definition one_hot (n m : nat) (label : nat -> nat) : ndarray :=
  tabulate n m (fun i j => if (j =? label i)%nat then 1 else 0).

(** * Properties *)

(** ** Lists *)

Section ListFacts.

Context {A B C : Type}.

Lemma map2_length (f : A -> B -> C) (l1 : list A) (l2 : list B) :
  length l1 = length l2 -> length (map2 f l1 l2) = length l1.
Proof.
  revert l2; induction l1 as [|x l1 IH]; intros [|y l2] H; simpl in *;
    try discriminate; auto.
Qed.

Lemma map2_app (f : A -> B -> C) (l1 l1' : list A) (l2 l2' : list B) :
  length l1 = length l2 ->
  map2 f (l1 ++ l1') (l2 ++ l2') = map2 f l1 l2 ++ map2 f l1' l2'.
Proof.
  revert l2; induction l1 as [|x l1 IH]; intros [|y l2] H; simpl in *;
    try discriminate; auto.
  f_equal; auto.
Qed.

Lemma map2_ext_in (f g : A -> B -> C) (l1 : list A) (l2 : list B) :
  (forall x y, In x l1 -> In y l2 -> f x y = g x y) ->
  map2 f l1 l2 = map2 g l1 l2.
Proof.
  revert l2; induction l1 as [|x l1 IH]; intros [|y l2] H; simpl; auto.
  f_equal; [apply H; simpl; auto | apply IH].
  intros; apply H; simpl; auto.
Qed.

Lemma map2_map_self (f : A -> B -> C) (g : A -> B) (l : list A) :
  map2 f l (map g l) = map (fun x => f x (g x)) l.
Proof. induction l; simpl; congruence. Qed.

Lemma map2_nth (f : A -> B -> C) (l1 : list A) (l2 : list B) a b c i :
  (i < length l1)%nat -> (i < length l2)%nat ->
  nth i (map2 f l1 l2) c = f (nth i l1 a) (nth i l2 b).
Proof.
  revert l2 i; induction l1 as [|x l1 IH]; intros [|y l2] [|i] H1 H2;
    simpl in *; try lia; auto.
  apply IH; lia.
Qed.

Lemma Forall_map2 (P : C -> Prop) (f : A -> B -> C) l1 l2 :
  (forall x y, In x l1 -> In y l2 -> P (f x y)) ->
  Forall P (map2 f l1 l2).
Proof.
  revert l2; induction l1 as [|x l1 IH]; intros [|y l2] H; simpl; auto.
  constructor; [apply H; simpl; auto | apply IH].
  intros; apply H; simpl; auto.
Qed.

End ListFacts.

Lemma map2_map_l {A A' B C : Type} (f : A' -> B -> C) (g : A -> A')
    (l1 : list A) (l2 : list B) :
  map2 f (map g l1) l2 = map2 (fun x y => f (g x) y) l1 l2.
Proof.
  revert l2; induction l1 as [|x l1 IH]; intros [|y l2]; simpl; auto.
  f_equal; auto.
Qed.

Lemma map2_map_r {A B B' C : Type} (f : A -> B' -> C) (g : B -> B')
    (l1 : list A) (l2 : list B) :
  map2 f l1 (map g l2) = map2 (fun x y => f x (g y)) l1 l2.
Proof.
  revert l2; induction l1 as [|x l1 IH]; intros [|y l2]; simpl; auto.
  f_equal; auto.
Qed.

Lemma map_map2 {A B C D : Type} (g : C -> D) (f : A -> B -> C)
    (l1 : list A) (l2 : list B) :
  map g (map2 f l1 l2) = map2 (fun x y => g (f x y)) l1 l2.
Proof.
  revert l2; induction l1 as [|x l1 IH]; intros [|y l2]; simpl; auto.
  f_equal; auto.
Qed.

Lemma map2_repeat_r {A B C : Type} (f : A -> B -> C) (l : list A) (y : B) :
  map2 f l (repeat y (length l)) = map (fun x => f x y) l.
Proof. induction l; simpl; congruence. Qed.

Lemma repeat_one_hd {A : Type} (d : A) (l : list A) :
  length l = 1%nat -> repeat (hd d l) 1 = l.
Proof. destruct l as [|x [|y l]]; simpl; intros H; try discriminate; auto. Qed.

(** ** Sums *)

Lemma Rsum_app (u v : list R) : Rsum (u ++ v) = Rsum u + Rsum v.
Proof. induction u; simpl; lra. Qed.

Lemma Rsum_map_scal (c : R) (f : R -> R) (v : list R) :
  (forall x, f x = x * c) -> Rsum (map f v) = Rsum v * c.
Proof. intros Hf; induction v; simpl; rewrite ?Hf, ?IHv; lra. Qed.

Lemma Rsum_map2_minus (u v : list R) :
  length u = length v -> Rsum (map2 Rminus u v) = Rsum u - Rsum v.
Proof.
  revert v; induction u as [|x u IH]; intros [|y v] H; simpl in *;
    try discriminate; [lra|].
  rewrite IH by lia; lra.
Qed.

Lemma Rsum_pos (v : list R) :
  v <> [] -> Forall (fun x => 0 < x) v -> 0 < Rsum v.
Proof.
  intros Hne H; induction H as [|x v Hx Hv IH]; [congruence|].
  simpl; destruct v as [|y v]; simpl in *; [lra|].
  assert (0 < y + Rsum v) by (apply IH; discriminate); lra.
Qed.

(** ** Shapes *)

Lemma is_ndarray_has_shape (a : ndarray) :
  is_ndarray a -> has_shape (nrows a) (ncols a) a.
Proof. intros H; split; [reflexivity | exact H]. Qed.

Lemma has_shape_same (a b : ndarray) :
  is_ndarray a -> is_ndarray b -> shape a = shape b ->
  has_shape (nrows a) (ncols a) b.
Proof.
  intros _ Hb Hs; unfold shape in Hs; injection Hs as Hn Hm.
  rewrite Hn, Hm; apply is_ndarray_has_shape, Hb.
Qed.

Lemma has_shape_ncols n m a :
  has_shape n m a -> (1 <= n)%nat -> ncols a = m.
Proof.
  intros [Hn Hr] Hpos; destruct a as [|r a]; simpl in *; [lia|].
  inversion Hr; auto.
Qed.

Lemma has_shape_is_ndarray n m a : has_shape n m a -> is_ndarray a.
Proof.
  intros [Hn Hr]; unfold is_ndarray.
  destruct a as [|r a]; [constructor|].
  simpl; inversion Hr; subst; exact Hr.
Qed.

Lemma has_shape_shape n m a :
  has_shape n m a -> (1 <= n)%nat -> shape a = (n, m).
Proof.
  intros H Hpos; unfold shape; rewrite (has_shape_ncols n m a H Hpos).
  destruct H as [Hn _]; unfold nrows; rewrite Hn; reflexivity.
Qed.

Lemma has_shape_app n n' m a a' :
  has_shape n m a -> has_shape n' m a' -> has_shape (n + n') m (a ++ a').
Proof.
  intros [Hn Hr] [Hn' Hr']; split;
    [rewrite length_app; lia | apply Forall_app; auto].
Qed.

Lemma has_shape_map n m m' (f : list R -> list R) a :
  has_shape n m a -> (forall r, length r = m -> length (f r) = m') ->
  has_shape n m' (map f a).
Proof.
  intros [Hn Hr] Hf; split; [rewrite length_map; auto|].
  apply Forall_map; eapply Forall_impl; [|exact Hr]; auto.
Qed.

Lemma has_shape_ufunc n m f a : has_shape n m a -> has_shape n m (ufunc f a).
Proof.
  intros H; eapply has_shape_map; [exact H|].
  intros r Hr; rewrite length_map; exact Hr.
Qed.

Lemma has_shape_map2 n m f a b :
  has_shape n m a -> has_shape n m b -> has_shape n m (map2 (map2 f) a b).
Proof.
  intros [Hn Ha] [Hn' Hb]; split; [rewrite map2_length; congruence|].
  apply Forall_map2; intros x y Hx Hy.
  rewrite Forall_forall in Ha, Hb.
  rewrite map2_length; [auto | rewrite Ha, Hb; auto].
Qed.

(** ** Broadcasting *)

Lemma broadcast_dim_refl d : broadcast_dim d d = Some d.
Proof. unfold broadcast_dim; rewrite Nat.eqb_refl; reflexivity. Qed.

Lemma broadcast_dim_one_r d : broadcast_dim d 1 = Some d.
Proof.
  unfold broadcast_dim; destruct (Nat.eqb_spec d 1) as [->|]; reflexivity.
Qed.

Lemma repeat_one_rows (a : ndarray) :
  Forall (fun r => length r = 1%nat) a ->
  map (fun r => repeat (hd 0 r) 1) a = a.
Proof.
  induction 1 as [|r a Hr _ IH]; [reflexivity|].
  change (repeat (hd 0 r) 1 :: map (fun r => repeat (hd 0 r) 1) a = r :: a).
  f_equal; [apply repeat_one_hd; exact Hr | exact IH].
Qed.

Lemma broadcast_to_same (a : ndarray) :
  is_ndarray a -> broadcast_to (nrows a) (ncols a) a = a.
Proof.
  intros Ha; unfold broadcast_to.
  assert (Hc : (if (ncols a =? 1)%nat
                then map (fun r => repeat (hd 0 r) (ncols a)) a else a) = a).
  { destruct (Nat.eqb_spec (ncols a) 1) as [E|]; [|reflexivity].
    rewrite E; unfold is_ndarray in Ha; rewrite E in Ha.
    apply repeat_one_rows; exact Ha. }
  rewrite Hc.
  destruct (Nat.eqb_spec (nrows a) 1) as [E|]; [|reflexivity].
  rewrite E; apply repeat_one_hd; exact E.
Qed.

Lemma broadcast_to_column (n m : nat) (v : vector) :
  length v = n -> broadcast_to n m (column v) = map (fun x => repeat x m) v.
Proof.
  intros Hn; unfold broadcast_to.
  destruct v as [|x v]; [simpl in *; subst; reflexivity|].
  assert (Hc : ncols (column (x :: v)) = 1%nat) by reflexivity.
  rewrite Hc; simpl (1 =? 1)%nat; cbv iota.
  assert (Hm : map (fun r => repeat (hd 0 r) m) (column (x :: v))
               = map (fun x => repeat x m) (x :: v)).
  { unfold column; rewrite map_map; reflexivity. }
  rewrite Hm.
  destruct (Nat.eqb_spec (nrows (column (x :: v))) 1) as [E|]; [|reflexivity].
  unfold nrows, column in E; rewrite length_map in E.
  rewrite <- Hn, E; apply repeat_one_hd; rewrite length_map; exact E.
Qed.

Lemma binop_same_shape (f : R -> R -> R) (a b : ndarray) :
  is_ndarray a -> is_ndarray b -> shape a = shape b ->
  binop f a b = Ok (map2 (map2 f) a b).
Proof.
  intros Ha Hb Hs; unfold binop; rewrite <- Hs.
  unfold broadcast_shapes; rewrite !broadcast_dim_refl.
  unfold shape at 1 2; simpl fst; simpl snd.
  rewrite (broadcast_to_same a Ha).
  unfold shape in Hs; injection Hs as Hn Hm.
  rewrite Hn, Hm, (broadcast_to_same b Hb); reflexivity.
Qed.

Lemma has_shape_eq n m a b :
  has_shape n m a -> has_shape n m b -> shape a = shape b.
Proof.
  intros Ha Hb; destruct n as [|n].
  - destruct Ha as [Ha _], Hb as [Hb _].
    apply length_zero_iff_nil in Ha, Hb; subst; reflexivity.
  - rewrite (has_shape_shape _ _ a Ha), (has_shape_shape _ _ b Hb) by lia.
    reflexivity.
Qed.

Lemma binop_has_shape (f : R -> R -> R) n m (a b : ndarray) :
  has_shape n m a -> has_shape n m b ->
  binop f a b = Ok (map2 (map2 f) a b).
Proof.
  intros Ha Hb; apply binop_same_shape;
    eauto using has_shape_is_ndarray, has_shape_eq.
Qed.

Lemma broadcast_column_shapes n m (a : ndarray) (v : vector) :
  has_shape n m a -> length v = n -> (1 <= n)%nat ->
  broadcast_shapes (shape a) (shape (column v)) = Some (n, m).
Proof.
  intros Ha Hv Hpos; rewrite (has_shape_shape n m a Ha Hpos).
  assert (Hs : shape (column v) = (n, 1%nat)).
  { destruct v as [|x v]; [simpl in Hv; lia|].
    unfold shape, nrows, column; rewrite length_map, Hv; reflexivity. }
  rewrite Hs; unfold broadcast_shapes; simpl fst; simpl snd.
  rewrite broadcast_dim_refl, broadcast_dim_one_r; reflexivity.
Qed.

Lemma map2_broadcast_column f n m (a : ndarray) (v : vector) :
  has_shape n m a ->
  map2 (map2 f) a (map (fun x => repeat x m) v) = with_column f a v.
Proof.
  intros [_ Hr]; unfold with_column; rewrite map2_map_r.
  apply map2_ext_in; intros r x Hin _.
  rewrite Forall_forall in Hr; rewrite <- (Hr r Hin).
  apply map2_repeat_r.
Qed.

Lemma binop_column (f : R -> R -> R) n m (a : ndarray) (v : vector) :
  has_shape n m a -> length v = n ->
  binop f a (column v) = Ok (with_column f a v).
Proof.
  intros Ha Hv; destruct n as [|n].
  - destruct Ha as [Ha _]; apply length_zero_iff_nil in Ha, Hv; subst.
    reflexivity.
  - assert (Hpos : (1 <= S n)%nat) by lia.
    unfold binop; rewrite (broadcast_column_shapes _ m a v Ha Hv Hpos).
    rewrite <- (has_shape_ncols _ _ _ Ha Hpos) at 1.
    destruct Ha as [Hn Hr] eqn:E; clear E.
    rewrite <- Hn at 1; change (length a) with (nrows a).
    rewrite broadcast_to_same by (eapply has_shape_is_ndarray; eauto).
    rewrite broadcast_to_column by exact Hv.
    f_equal; eapply map2_broadcast_column; eauto.
Qed.

Lemma inplace_binop_column (f : R -> R -> R) n m (a : ndarray) (v : vector) :
  has_shape n m a -> length v = n ->
  inplace_binop f a (column v) = Ok (with_column f a v).
Proof.
  intros Ha Hv; destruct n as [|n].
  - destruct Ha as [Ha _]; apply length_zero_iff_nil in Ha, Hv; subst.
    reflexivity.
  - assert (Hpos : (1 <= S n)%nat) by lia.
    unfold inplace_binop; rewrite (broadcast_column_shapes _ m a v Ha Hv Hpos).
    rewrite (has_shape_ncols _ _ _ Ha Hpos).
    destruct Ha as [Hn Hr] eqn:E; clear E.
    unfold nrows; rewrite Hn, !Nat.eqb_refl; simpl andb; cbv iota.
    rewrite broadcast_to_column by exact Hv.
    f_equal; eapply map2_broadcast_column; eauto.
Qed.

Lemma has_shape_with_column f n m a v :
  has_shape n m a -> length v = n -> has_shape n m (with_column f a v).
Proof.
  intros [Hn Hr] Hv; split; [unfold with_column; rewrite map2_length; lia|].
  apply Forall_map2; intros r x Hin _; rewrite length_map.
  rewrite Forall_forall in Hr; auto.
Qed.

Lemma with_column_map_self f (g : list R -> R) (a : ndarray) :
  with_column f a (map g a) = map (fun r => map (fun y => f y (g r)) r) a.
Proof. unfold with_column; apply map2_map_self. Qed.

Lemma max_axis1_ok n m (a : ndarray) :
  has_shape n m a -> (1 <= n)%nat -> (1 <= m)%nat ->
  max_axis1 a = Ok (map row_max a).
Proof.
  intros Ha Hn Hm; unfold max_axis1.
  rewrite (has_shape_ncols _ _ _ Ha Hn).
  destruct (Nat.eqb_spec m 0); [lia | reflexivity].
Qed.

(** ** Arrays given by their entries *)

Lemma map_nth_seq {A : Type} (d : A) (l : list A) :
  map (fun i => nth i l d) (seq 0 (length l)) = l.
Proof.
  induction l as [|x l IH]; [reflexivity|].
  simpl length; rewrite <- cons_seq, <- seq_shift.
  simpl; rewrite map_map; f_equal; exact IH.
Qed.

Lemma map2_map_map {A B C D : Type} (f : B -> C -> D) (g : A -> B)
    (h : A -> C) (l : list A) :
  map2 f (map g l) (map h l) = map (fun x => f (g x) (h x)) l.
Proof. induction l; simpl; congruence. Qed.

Lemma tabulate_item n m (a : ndarray) :
  has_shape n m a -> tabulate n m (item a) = a.
Proof.
  intros [Hn Hr]; unfold tabulate, item.
  transitivity (map (fun i => nth i a []) (seq 0 n));
    [|rewrite <- Hn; apply map_nth_seq].
  apply map_ext_in; intros i Hi; apply in_seq in Hi.
  assert (Hlen : length (nth i a []) = m).
  { rewrite Forall_forall in Hr; apply Hr, nth_In; lia. }
  rewrite <- Hlen; apply map_nth_seq.
Qed.

Lemma tabulate_ext n m (f g : nat -> nat -> R) :
  (forall i j, (i < n)%nat -> (j < m)%nat -> f i j = g i j) ->
  tabulate n m f = tabulate n m g.
Proof.
  intros H; unfold tabulate.
  apply map_ext_in; intros i Hi; apply in_seq in Hi.
  apply map_ext_in; intros j Hj; apply in_seq in Hj.
  apply H; lia.
Qed.

Lemma has_shape_tabulate n m f : has_shape n m (tabulate n m f).
Proof.
  split; unfold tabulate; [rewrite length_map, length_seq; reflexivity|].
  apply Forall_map, Forall_forall; intros i _.
  rewrite length_map, length_seq; reflexivity.
Qed.

Lemma map2_tabulate n m (op : R -> R -> R) f g :
  map2 (map2 op) (tabulate n m f) (tabulate n m g)
  = tabulate n m (fun i j => op (f i j) (g i j)).
Proof.
  unfold tabulate; rewrite map2_map_map.
  apply map_ext; intros i; apply map2_map_map.
Qed.

Lemma binop_tabulate n m (op : R -> R -> R) f g :
  binop op (tabulate n m f) (tabulate n m g)
  = Ok (tabulate n m (fun i j => op (f i j) (g i j))).
Proof.
  rewrite (binop_has_shape op n m) by apply has_shape_tabulate.
  rewrite map2_tabulate; reflexivity.
Qed.

Lemma ufunc_tabulate n m (u : R -> R) f :
  ufunc u (tabulate n m f) = tabulate n m (fun i j => u (f i j)).
Proof.
  unfold ufunc, tabulate; rewrite map_map.
  apply map_ext; intros i; apply map_map.
Qed.

Lemma sum_axis1_tabulate n m f :
  sum_axis1 (tabulate n m f) = map (fun i => big_sum m (f i)) (seq 0 n).
Proof. unfold sum_axis1, tabulate; rewrite map_map; reflexivity. Qed.

Lemma mean1_map_seq n (f : nat -> R) :
  mean1 (map f (seq 0 n)) = big_sum n f / INR n.
Proof. unfold mean1; rewrite length_map, length_seq; reflexivity. Qed.

Lemma with_column_tabulate n m (op : R -> R -> R) f (h : nat -> R) :
  with_column op (tabulate n m f) (map h (seq 0 n))
  = tabulate n m (fun i j => op (f i j) (h i)).
Proof.
  unfold with_column, tabulate; rewrite map2_map_map.
  apply map_ext; intros i; apply map_map.
Qed.

Lemma nrows_tabulate n m f : nrows (tabulate n m f) = n.
Proof. unfold nrows, tabulate; rewrite length_map, length_seq; reflexivity. Qed.

Lemma big_sum_ext n (f g : nat -> R) :
  (forall i, (i < n)%nat -> f i = g i) -> big_sum n f = big_sum n g.
Proof.
  intros H; unfold big_sum; f_equal.
  apply map_ext_in; intros i Hi; apply in_seq in Hi; apply H; lia.
Qed.

Lemma big_sum_scal n (c : R) (f : nat -> R) :
  big_sum n (fun i => c * f i) = c * big_sum n f.
Proof.
  unfold big_sum; induction (seq 0 n) as [|i l IH]; simpl; [lra|].
  rewrite IH; lra.
Qed.

Lemma big_sum_minus n (f g : nat -> R) :
  big_sum n (fun i => f i - g i) = big_sum n f - big_sum n g.
Proof.
  unfold big_sum; induction (seq 0 n) as [|i l IH]; simpl; [lra|].
  rewrite IH; lra.
Qed.

Lemma Rsum_concat_tabulate n m f :
  Rsum (concat (tabulate n m f)) = big_sum n (fun i => big_sum m (f i)).
Proof.
  unfold tabulate, big_sum; induction (seq 0 n) as [|i l IH];
    [reflexivity|].
  simpl; rewrite Rsum_app, IH; reflexivity.
Qed.

Lemma size_tabulate n m f : size (tabulate n m f) = (n * m)%nat.
Proof.
  unfold size, tabulate.
  assert (H : forall l : list nat,
             length (concat (map (fun i => map (f i) (seq 0 m)) l))
             = (length l * m)%nat).
  { induction l as [|i l IH]; [reflexivity|].
    simpl; rewrite length_app, IH, length_map, length_seq; reflexivity. }
  rewrite H, length_seq; reflexivity.
Qed.

(** ** SumOfSquaredDiffsError *)

Lemma SumOfSquaredDiffs_tabulate n m f g :
  SumOfSquaredDiffsError.__call__ (tabulate n m f) (tabulate n m g)
  = Ok (big_sum n (fun i => 0.5 * big_sum m (fun j => (f i j - g i j) ^ 2))
        / INR n).
Proof.
  unfold SumOfSquaredDiffsError.__call__; rewrite binop_tabulate.
  cbn [bind]; rewrite ufunc_tabulate, sum_axis1_tabulate, mean1_map_seq.
  f_equal; rewrite big_sum_scal; lra.
Qed.

Lemma SumOfSquaredDiffs_grad_tabulate n m f g :
  SumOfSquaredDiffsError.grad (tabulate n m f) (tabulate n m g)
  = Ok (tabulate n m (fun i j => (f i j - g i j) / INR n)).
Proof.
  unfold SumOfSquaredDiffsError.grad; rewrite binop_tabulate.
  cbn [bind]; rewrite ufunc_tabulate.
  unfold shape; cbn [fst]; rewrite nrows_tabulate; reflexivity.
Qed.

(** C3. For equal-shaped arrays with at least one row the value of
    SumOfSquaredDiffsError is the mean over the batch of 0.5 times the
    sum over a row of [(outputs - targets)^2], and its gradient is
    [(outputs - targets) / batch_size]; for outputs [[1, 2]] and targets
    [[0, 0]] the value is 2.5 and the gradient [[1, 2]]. *)
Theorem SumOfSquaredDiffs_value_and_grad :
  (forall outputs targets : ndarray,
      is_ndarray outputs -> is_ndarray targets ->
      shape outputs = shape targets -> (1 <= nrows outputs)%nat ->
      SumOfSquaredDiffsError.__call__ outputs targets
        = Ok (spec_sum_of_squared_diffs outputs targets)
      /\ SumOfSquaredDiffsError.grad outputs targets
        = Ok (spec_difference_grad outputs targets))
  /\ SumOfSquaredDiffsError.__call__ [[1; 2]] [[0; 0]] = Ok 2.5
  /\ SumOfSquaredDiffsError.grad [[1; 2]] [[0; 0]] = Ok [[1; 2]].
Proof.
  split; [|split].
  - intros o t Ho Ht Hs _.
    pose proof (is_ndarray_has_shape o Ho) as Ho'.
    pose proof (has_shape_same o t Ho Ht Hs) as Ht'.
    unfold spec_sum_of_squared_diffs, spec_difference_grad; cbv zeta.
    rewrite <- SumOfSquaredDiffs_tabulate, <- SumOfSquaredDiffs_grad_tabulate.
    rewrite !(tabulate_item _ _ o Ho'), !(tabulate_item _ _ t Ht').
    split; reflexivity.
  - unfold SumOfSquaredDiffsError.__call__; simpl; unfold mean1; simpl.
    f_equal; lra.
  - unfold SumOfSquaredDiffsError.grad; simpl.
    repeat f_equal; lra.
Qed.

Lemma SumOfSquaredDiffs_value_and_grad_witness :
  SumOfSquaredDiffsError.__call__ [[3; 1]; [0; 2]] [[1; 1]; [0; 0]]
    = Ok (spec_sum_of_squared_diffs [[3; 1]; [0; 2]] [[1; 1]; [0; 0]])
  /\ SumOfSquaredDiffsError.grad [[3; 1]; [0; 2]] [[1; 1]; [0; 0]]
    = Ok (spec_difference_grad [[3; 1]; [0; 2]] [[1; 1]; [0; 0]]).
Proof.
  apply (proj1 SumOfSquaredDiffs_value_and_grad).
  - repeat constructor.
  - repeat constructor.
  - reflexivity.
  - simpl; lia.
Defined.

Lemma item_tabulate n m f i j :
  (i < n)%nat -> (j < m)%nat -> item (tabulate n m f) i j = f i j.
Proof.
  intros Hi Hj; unfold item, tabulate.
  rewrite (nth_indep _ [] (map (f 0%nat) (seq 0 m)))
    by (rewrite length_map, length_seq; exact Hi).
  rewrite (map_nth (fun i => map (f i) (seq 0 m))), seq_nth by exact Hi.
  rewrite (nth_indep _ 0 (f (0 + i)%nat 0%nat))
    by (rewrite length_map, length_seq; exact Hj).
  rewrite (map_nth (f (0 + i)%nat)), seq_nth by exact Hj; reflexivity.
Qed.

Lemma ncols_tabulate n m f : (1 <= n)%nat -> ncols (tabulate n m f) = m.
Proof.
  intros Hn; apply (has_shape_ncols n); [apply has_shape_tabulate | exact Hn].
Qed.

Lemma np_mean_tabulate n m f :
  np_mean (tabulate n m f)
  = big_sum n (fun i => big_sum m (f i)) / INR (n * m).
Proof.
  unfold np_mean; rewrite Rsum_concat_tabulate, size_tabulate; reflexivity.
Qed.

(** ** BinaryCrossEntropyError *)

Lemma load_outputs_targets (outputs targets : ndarray) :
  let locals : frame := [("outputs", outputs); ("targets", targets)] in
  load locals "outputs" = Ok outputs
  /\ load locals "targets" = Ok targets
  /\ load locals "ouputs" = Raise (NameError "ouputs").
Proof. repeat split. Qed.

Lemma BinaryCrossEntropy_raises_has_shape n m (outputs targets : ndarray) :
  has_shape n m outputs -> has_shape n m targets ->
  BinaryCrossEntropyError.__call__ outputs targets
  = Raise (NameError "ouputs").
Proof.
  intros Ho Ht.
  unfold BinaryCrossEntropyError.__call__; cbv zeta.
  destruct (load_outputs_targets outputs targets) as (-> & -> & ->).
  cbn [bind].
  rewrite (binop_has_shape Rmult n m);
    [reflexivity | exact Ht | apply has_shape_ufunc, Ho].
Qed.

(** C1. On equal-shaped arrays the value of BinaryCrossEntropyError is
    not a scalar: evaluating the second logarithm reads the unbound name
    [ouputs] and the call ends with a NameError, whatever the entries
    are. *)
Theorem BinaryCrossEntropy_value_raises (outputs targets : ndarray) :
  is_ndarray outputs -> is_ndarray targets ->
  shape outputs = shape targets -> (1 <= nrows outputs)%nat ->
  BinaryCrossEntropyError.__call__ outputs targets
  = Raise (NameError "ouputs").
Proof.
  intros Ho Ht Hs _.
  apply (BinaryCrossEntropy_raises_has_shape (nrows outputs) (ncols outputs)).
  - apply is_ndarray_has_shape, Ho.
  - apply has_shape_same; assumption.
Qed.

Lemma BinaryCrossEntropy_value_raises_witness :
  BinaryCrossEntropyError.__call__ [[1 / 2]] [[1]]
  = Raise (NameError "ouputs").
Proof.
  apply BinaryCrossEntropy_value_raises.
  - repeat constructor.
  - repeat constructor.
  - reflexivity.
  - simpl; lia.
Defined.

(** ** BinaryCrossEntropySigmoidError *)

Lemma sigmoid_tabulate n m f :
  BinaryCrossEntropySigmoidError.sigmoid (tabulate n m f)
  = tabulate n m (fun i j => logistic (f i j)).
Proof.
  unfold BinaryCrossEntropySigmoidError.sigmoid, np_exp.
  rewrite !ufunc_tabulate; reflexivity.
Qed.

Lemma BinaryCrossEntropySigmoid_tabulate n m f g :
  BinaryCrossEntropySigmoidError.__call__ (tabulate n m f) (tabulate n m g)
  = Ok (- (big_sum n (fun i => big_sum m (fun j =>
            g i j * ln (logistic (f i j))
            + (1 - g i j) * ln (1 - logistic (f i j))))
          / INR (n * m))).
Proof.
  unfold BinaryCrossEntropySigmoidError.__call__; cbv zeta.
  rewrite sigmoid_tabulate; unfold np_log.
  rewrite !ufunc_tabulate, !binop_tabulate; cbn [bind].
  rewrite binop_tabulate; cbn [bind].
  rewrite np_mean_tabulate; reflexivity.
Qed.

Lemma BinaryCrossEntropySigmoid_grad_tabulate n m f g :
  BinaryCrossEntropySigmoidError.grad (tabulate n m f) (tabulate n m g)
  = Ok (tabulate n m (fun i j => (logistic (f i j) - g i j) / INR n)).
Proof.
  unfold BinaryCrossEntropySigmoidError.grad; cbv zeta.
  rewrite sigmoid_tabulate, binop_tabulate; cbn [bind].
  rewrite ufunc_tabulate; unfold shape; cbn [fst].
  rewrite nrows_tabulate; reflexivity.
Qed.

(** C8. For equal-shaped arrays with at least one row the value of
    BinaryCrossEntropySigmoidError is the binary cross-entropy of
    [probs = 1/(1+exp(-outputs))] and the targets, and its gradient is
    [(probs - targets) / batch_size]. *)
Theorem BinaryCrossEntropySigmoid_value_and_grad (outputs targets : ndarray) :
  is_ndarray outputs -> is_ndarray targets ->
  shape outputs = shape targets -> (1 <= nrows outputs)%nat ->
  BinaryCrossEntropySigmoidError.__call__ outputs targets
    = Ok (spec_binary_cross_entropy (spec_sigmoid outputs) targets)
  /\ BinaryCrossEntropySigmoidError.grad outputs targets
    = Ok (spec_sigmoid_grad outputs targets).
Proof.
  intros Ho Ht Hs Hn.
  pose proof (is_ndarray_has_shape outputs Ho) as Ho'.
  pose proof (has_shape_same outputs targets Ho Ht Hs) as Ht'.
  set (n := nrows outputs) in *; set (m := ncols outputs) in *.
  split.
  - rewrite <- (tabulate_item n m outputs Ho') at 1.
    rewrite <- (tabulate_item n m targets Ht') at 1.
    rewrite BinaryCrossEntropySigmoid_tabulate.
    unfold spec_binary_cross_entropy, spec_sigmoid; cbv zeta.
    fold n; fold m; rewrite nrows_tabulate, ncols_tabulate by exact Hn.
    do 3 f_equal.
    apply big_sum_ext; intros i Hi; apply big_sum_ext; intros j Hj.
    rewrite item_tabulate by assumption; reflexivity.
  - rewrite <- (tabulate_item n m outputs Ho') at 1.
    rewrite <- (tabulate_item n m targets Ht') at 1.
    rewrite BinaryCrossEntropySigmoid_grad_tabulate.
    unfold spec_sigmoid_grad, spec_sigmoid; cbv zeta; fold n; fold m.
    f_equal; apply tabulate_ext; intros i j Hi Hj.
    rewrite item_tabulate by assumption; reflexivity.
Qed.

Lemma BinaryCrossEntropySigmoid_value_and_grad_witness :
  BinaryCrossEntropySigmoidError.__call__ [[0; 2]; [-1; 3]] [[1; 0]; [0; 1]]
    = Ok (spec_binary_cross_entropy
            (spec_sigmoid [[0; 2]; [-1; 3]]) [[1; 0]; [0; 1]])
  /\ BinaryCrossEntropySigmoidError.grad [[0; 2]; [-1; 3]] [[1; 0]; [0; 1]]
    = Ok (spec_sigmoid_grad [[0; 2]; [-1; 3]] [[1; 0]; [0; 1]]).
Proof.
  apply BinaryCrossEntropySigmoid_value_and_grad.
  - repeat constructor.
  - repeat constructor.
  - reflexivity.
  - simpl; lia.
Defined.

(** ** Shapes that do not match *)

Lemma shape_ufunc (f : R -> R) (a : ndarray) : shape (ufunc f a) = shape a.
Proof.
  unfold shape, nrows, ufunc; rewrite length_map.
  destruct a as [|r a]; simpl; [|rewrite length_map]; reflexivity.
Qed.

Lemma broadcast_dim_none_sym d1 d2 :
  broadcast_dim d1 d2 = None -> broadcast_dim d2 d1 = None.
Proof.
  unfold broadcast_dim.
  destruct (Nat.eqb_spec d1 d2), (Nat.eqb_spec d2 d1),
    (Nat.eqb_spec d1 1), (Nat.eqb_spec d2 1); congruence || lia.
Qed.

Lemma broadcast_dim_some_sym d1 d2 d :
  broadcast_dim d1 d2 = Some d -> broadcast_dim d2 d1 = Some d.
Proof.
  unfold broadcast_dim.
  destruct (Nat.eqb_spec d1 d2), (Nat.eqb_spec d2 d1),
    (Nat.eqb_spec d1 1), (Nat.eqb_spec d2 1); congruence || lia.
Qed.

Lemma broadcast_shapes_none_sym s1 s2 :
  broadcast_shapes s1 s2 = None -> broadcast_shapes s2 s1 = None.
Proof.
  unfold broadcast_shapes.
  destruct (broadcast_dim (fst s1) (fst s2)) as [n|] eqn:E1.
  - rewrite (broadcast_dim_some_sym _ _ _ E1).
    destruct (broadcast_dim (snd s1) (snd s2)) as [m|] eqn:E2;
      [discriminate|].
    rewrite (broadcast_dim_none_sym _ _ E2); reflexivity.
  - rewrite (broadcast_dim_none_sym _ _ E1); reflexivity.
Qed.

Lemma binop_incompatible (f : R -> R -> R) (a b : ndarray) :
  broadcast_shapes (shape a) (shape b) = None ->
  binop f a b = Raise broadcast_error.
Proof. intros H; unfold binop; rewrite H; reflexivity. Qed.

Lemma binop_raises (f : R -> R -> R) (a b a' b' : ndarray) :
  shape a' = shape a -> shape b' = shape b ->
  broadcast_shapes (shape a) (shape b) = None ->
  binop f a' b' = Raise broadcast_error.
Proof.
  intros Ha Hb H; apply binop_incompatible; rewrite Ha, Hb; exact H.
Qed.

Section SoftmaxSteps.

Variables (n m : nat) (outputs : ndarray).
Hypothesis Hshape : has_shape n m outputs.

Lemma normalized_outputs_eq :
  binop Rminus outputs (column (map row_max outputs))
  = Ok (map shifted_row outputs).
Proof.
  rewrite (binop_column Rminus n m) by
    (try rewrite length_map; apply Hshape).
  rewrite with_column_map_self; reflexivity.
Qed.

Lemma has_shape_shifted : has_shape n m (map shifted_row outputs).
Proof.
  eapply has_shape_map; [exact Hshape|].
  intros r Hr; unfold shifted_row; rewrite length_map; exact Hr.
Qed.

Lemma log_prob_eq :
  let normalized_outputs := map shifted_row outputs in
  binop Rminus normalized_outputs
    (column (map ln (sum_axis1 (np_exp normalized_outputs))))
  = Ok (map log_softmax_row outputs).
Proof.
  cbv zeta; unfold sum_axis1, np_exp, ufunc.
  rewrite !map_map.
  rewrite (binop_column Rminus n m);
    [|apply has_shape_shifted | rewrite length_map; apply Hshape].
  unfold with_column; rewrite map2_map_l, map2_map_self.
  reflexivity.
Qed.

Lemma has_shape_log_softmax : has_shape n m (map log_softmax_row outputs).
Proof.
  eapply has_shape_map; [exact Hshape|].
  intros r Hr; unfold log_softmax_row, shifted_row; cbv zeta.
  rewrite !length_map; exact Hr.
Qed.

Lemma probs_eq :
  let probs := np_exp (map shifted_row outputs) in
  inplace_binop Rdiv probs (column (sum_axis1 probs))
  = Ok (map softmax_row outputs).
Proof.
  cbv zeta; unfold sum_axis1, np_exp, ufunc.
  rewrite !map_map.
  rewrite (inplace_binop_column Rdiv n m).
  - unfold with_column; rewrite map2_map_l, map2_map_self; reflexivity.
  - eapply has_shape_map; [exact Hshape|].
    intros r Hr; unfold shifted_row; rewrite !length_map; exact Hr.
  - rewrite length_map; apply Hshape.
Qed.

Lemma has_shape_softmax : has_shape n m (map softmax_row outputs).
Proof.
  eapply has_shape_map; [exact Hshape|].
  intros r Hr; unfold softmax_row, shifted_row; cbv zeta.
  rewrite !length_map; exact Hr.
Qed.

End SoftmaxSteps.

Lemma ncols_nonzero_rows (a : ndarray) :
  ncols a <> 0%nat -> (1 <= nrows a)%nat /\ (1 <= ncols a)%nat.
Proof. destruct a as [|r a]; simpl; intros H; lia. Qed.

Lemma softmax_unregularized_cost_rows n m (outputs targets : ndarray) :
  has_shape n m outputs -> (1 <= n)%nat -> (1 <= m)%nat ->
  CrossEntropySoftmaxError.unregularized_cost outputs targets
  = p <- binop Rmult targets (map log_softmax_row outputs) ;;
    Ok (- mean1 (sum_axis1 p)).
Proof.
  intros Ho Hn Hm; unfold CrossEntropySoftmaxError.unregularized_cost.
  rewrite (max_axis1_ok n m) by assumption; cbn [bind].
  rewrite (normalized_outputs_eq n m) by exact Ho; cbn [bind].
  rewrite (log_prob_eq n m outputs Ho); reflexivity.
Qed.

Lemma softmax_grad_rows n m self (outputs targets : ndarray) :
  has_shape n m outputs -> (1 <= n)%nat -> (1 <= m)%nat ->
  CrossEntropySoftmaxError.grad self outputs targets
  = d <- binop Rminus (map softmax_row outputs) targets ;;
    Ok (ufunc (fun x => x / INR n) d).
Proof.
  intros Ho Hn Hm; unfold CrossEntropySoftmaxError.grad.
  rewrite (max_axis1_ok n m) by assumption; cbn [bind].
  rewrite (normalized_outputs_eq n m) by exact Ho; cbn [bind].
  rewrite (probs_eq n m outputs Ho); cbn [bind].
  unfold shape, nrows; cbn [fst]; destruct Ho as [-> _]; reflexivity.
Qed.

Lemma bind_raises {A B : Type} (r : result A) (k : A -> result B) :
  raises_ValueError r -> raises_ValueError (bind r k).
Proof. intros [msg ->]; exists msg; reflexivity. Qed.

Lemma broadcast_error_raises {A : Type} :
  raises_ValueError (@Raise A broadcast_error).
Proof. eexists; reflexivity. Qed.

Section Incompatible.

Variables outputs targets : ndarray.
Hypothesis Hshapes :
  broadcast_shapes (shape outputs) (shape targets) = None.

Let Hsym := broadcast_shapes_none_sym _ _ Hshapes.

Lemma SumOfSquaredDiffs_incompatible :
  raises_ValueError (SumOfSquaredDiffsError.__call__ outputs targets)
  /\ raises_ValueError (SumOfSquaredDiffsError.grad outputs targets).
Proof.
  unfold SumOfSquaredDiffsError.__call__, SumOfSquaredDiffsError.grad.
  rewrite (binop_incompatible _ _ _ Hshapes); cbn [bind].
  split; apply broadcast_error_raises.
Qed.

Lemma BinaryCrossEntropy_incompatible :
  raises_ValueError (BinaryCrossEntropyError.__call__ outputs targets)
  /\ raises_ValueError (BinaryCrossEntropyError.grad outputs targets).
Proof.
  unfold BinaryCrossEntropyError.__call__, BinaryCrossEntropyError.grad.
  cbv zeta.
  destruct (load_outputs_targets outputs targets) as (-> & -> & _).
  cbn [bind]; unfold np_log.
  rewrite (binop_raises Rmult targets outputs), (binop_raises Rdiv targets outputs);
    auto using shape_ufunc.
  split; apply broadcast_error_raises.
Qed.

Lemma BinaryCrossEntropySigmoid_incompatible :
  raises_ValueError (BinaryCrossEntropySigmoidError.__call__ outputs targets)
  /\ raises_ValueError (BinaryCrossEntropySigmoidError.grad outputs targets).
Proof.
  unfold BinaryCrossEntropySigmoidError.__call__,
    BinaryCrossEntropySigmoidError.grad; cbv zeta.
  assert (Hp : shape (BinaryCrossEntropySigmoidError.sigmoid outputs)
               = shape outputs).
  { unfold BinaryCrossEntropySigmoidError.sigmoid, np_exp.
    rewrite !shape_ufunc; reflexivity. }
  unfold np_log.
  rewrite (binop_raises Rmult targets outputs),
    (binop_raises Rminus outputs targets);
    auto; try (rewrite shape_ufunc; exact Hp).
  split; apply broadcast_error_raises.
Qed.

Lemma CrossEntropy_incompatible :
  raises_ValueError (CrossEntropyError.__call__ outputs targets)
  /\ raises_ValueError (CrossEntropyError.grad outputs targets).
Proof.
  unfold CrossEntropyError.__call__, CrossEntropyError.grad, np_log.
  rewrite (binop_raises Rmult targets outputs),
    (binop_incompatible Rdiv targets outputs); auto using shape_ufunc.
  split; apply broadcast_error_raises.
Qed.

Hypothesis Houtputs : is_ndarray outputs.

Lemma CrossEntropySoftmax_incompatible self :
  raises_ValueError
    (CrossEntropySoftmaxError.__call__ self outputs targets)
  /\ raises_ValueError (CrossEntropySoftmaxError.grad self outputs targets).
Proof.
  destruct (Nat.eq_dec (ncols outputs) 0) as [E|E].
  - unfold CrossEntropySoftmaxError.__call__,
      CrossEntropySoftmaxError.unregularized_cost,
      CrossEntropySoftmaxError.grad, max_axis1.
    rewrite E; simpl; split; eexists; reflexivity.
  - destruct (ncols_nonzero_rows outputs E) as [Hn Hm].
    pose proof (is_ndarray_has_shape outputs Houtputs) as Ho.
    unfold CrossEntropySoftmaxError.__call__.
    rewrite (softmax_unregularized_cost_rows _ _ _ _ Ho Hn Hm).
    rewrite (softmax_grad_rows _ _ _ _ _ Ho Hn Hm).
    rewrite (binop_raises Rmult targets outputs),
      (binop_raises Rminus outputs targets); auto.
    + split; apply broadcast_error_raises.
    + eapply has_shape_eq; [apply has_shape_softmax|]; exact Ho.
    + eapply has_shape_eq; [apply has_shape_log_softmax|]; exact Ho.
Qed.

End Incompatible.

(** C2, as the code has it. No error function compares the two shapes.
    When numpy cannot broadcast them, as for shapes (4,3) and (4,2), the
    value and the gradient of every variant end with a ValueError and
    return nothing. *)
Theorem incompatible_shapes_raise :
  (forall (error : error_function) (outputs targets : ndarray),
      is_ndarray outputs -> is_ndarray targets ->
      broadcast_shapes (shape outputs) (shape targets) = None ->
      raises_ValueError (value error outputs targets)
      /\ raises_ValueError (gradient error outputs targets))
  /\ (forall outputs targets : ndarray,
         shape outputs = (4, 3)%nat -> shape targets = (4, 2)%nat ->
         broadcast_shapes (shape outputs) (shape targets) = None).
Proof.
  split.
  - intros error o t Ho _ H; destruct error; simpl.
    + apply SumOfSquaredDiffs_incompatible, H.
    + apply BinaryCrossEntropy_incompatible, H.
    + apply BinaryCrossEntropySigmoid_incompatible, H.
    + apply CrossEntropy_incompatible, H.
    + apply CrossEntropySoftmax_incompatible; assumption.
  - intros o t -> ->; reflexivity.
Qed.

Lemma incompatible_shapes_raise_witness :
  let outputs := [[1; 2; 3]; [4; 5; 6]; [7; 8; 9]; [1; 0; 1]] in
  let targets := [[1; 0]; [0; 1]; [1; 0]; [0; 1]] in
  let error :=
    CrossEntropySoftmax (CrossEntropySoftmaxError.__init__ no_regularizer) in
  raises_ValueError (value error outputs targets)
  /\ raises_ValueError (gradient error outputs targets).
Proof.
  intros outputs targets error.
  apply (proj1 incompatible_shapes_raise).
  - repeat constructor.
  - repeat constructor.
  - apply (proj2 incompatible_shapes_raise); reflexivity.
Defined.

(** C2 as stated fails: arrays of shapes (2,2) and (2,1) are not of the
    same shape, and SumOfSquaredDiffsError returns a value and a gradient
    for them. *)
Lemma mismatched_shapes_are_broadcast :
  let outputs := [[1; 2]; [3; 4]] in
  let targets := [[0]; [0]] in
  shape outputs <> shape targets
  /\ value SumOfSquaredDiffs outputs targets = Ok 7.5
  /\ gradient SumOfSquaredDiffs outputs targets
     = Ok [[1 / 2; 1]; [3 / 2; 2]].
Proof.
  cbv zeta; split; [discriminate|split].
  - unfold value, SumOfSquaredDiffsError.__call__; simpl.
    unfold mean1; simpl; f_equal; lra.
  - unfold gradient, SumOfSquaredDiffsError.grad; simpl.
    repeat f_equal; lra.
Qed.

(** ** CrossEntropySoftmaxError *)

(** *** The maximum of a row *)

Lemma Rmax_shift (c x y : R) : Rmax (x + c) (y + c) = Rmax x y + c.
Proof.
  unfold Rmax; destruct (Rle_dec (x + c) (y + c)), (Rle_dec x y); lra.
Qed.

Lemma fold_left_Rmax_shift (c : R) (r : list R) (x : R) :
  fold_left Rmax (map (fun y => y + c) r) (x + c) = fold_left Rmax r x + c.
Proof.
  revert x; induction r as [|y r IH]; intros x; simpl; [reflexivity|].
  rewrite <- IH; f_equal; apply Rmax_shift.
Qed.

Lemma fold_left_Rmax_ge (r : list R) (x : R) :
  x <= fold_left Rmax r x /\ Forall (fun y => y <= fold_left Rmax r x) r.
Proof.
  revert x; induction r as [|y r IH]; intros x; simpl;
    [split; [lra | constructor]|].
  destruct (IH (Rmax x y)) as [H1 H2].
  pose proof (Rmax_l x y); pose proof (Rmax_r x y).
  split; [lra | constructor; [lra | exact H2]].
Qed.

Lemma fold_left_Rmax_in (r : list R) (x : R) :
  In (fold_left Rmax r x) (x :: r).
Proof.
  revert x; induction r as [|y r IH]; intros x; simpl; [auto|].
  destruct (IH (Rmax x y)) as [H|H]; [|auto].
  rewrite <- H; unfold Rmax; destruct (Rle_dec x y); auto.
Qed.

(** [row_max] is the largest entry of a row that has one. *)
Lemma row_max_spec (r : list R) :
  r <> [] -> In (row_max r) r /\ Forall (fun y => y <= row_max r) r.
Proof.
  destruct r as [|x r]; [congruence|]; intros _; unfold row_max.
  split; [apply fold_left_Rmax_in|].
  destruct (fold_left_Rmax_ge r x); constructor; assumption.
Qed.

Lemma shifted_row_shift (c : R) (r : list R) :
  shifted_row (map (fun y => y + c) r) = shifted_row r.
Proof.
  destruct r as [|x r]; [reflexivity|].
  unfold shifted_row; rewrite map_map.
  assert (E : row_max (map (fun y => y + c) (x :: r)) = row_max (x :: r) + c)
    by apply fold_left_Rmax_shift.
  rewrite E; apply map_ext; intros y; lra.
Qed.

Lemma softmax_row_shift (c : R) (r : list R) :
  softmax_row (map (fun y => y + c) r) = softmax_row r.
Proof. unfold softmax_row; rewrite shifted_row_shift; reflexivity. Qed.

Lemma log_softmax_row_shift (c : R) (r : list R) :
  log_softmax_row (map (fun y => y + c) r) = log_softmax_row r.
Proof. unfold log_softmax_row; rewrite shifted_row_shift; reflexivity. Qed.

Lemma ncols_ufunc (f : R -> R) (a : ndarray) : ncols (ufunc f a) = ncols a.
Proof. pose proof (shape_ufunc f a) as H; injection H; auto. Qed.

(** C4. Adding a scalar [c] to every entry of the outputs changes
    neither the value nor the gradient of CrossEntropySoftmaxError. *)
Theorem CrossEntropySoftmax_shift_invariant
    (self : CrossEntropySoftmaxError.t) (outputs targets : ndarray) (c : R) :
  is_ndarray outputs -> is_ndarray targets ->
  shape outputs = shape targets -> (1 <= nrows outputs)%nat ->
  let shifted := ufunc (fun x => x + c) outputs in
  CrossEntropySoftmaxError.__call__ self shifted targets
    = CrossEntropySoftmaxError.__call__ self outputs targets
  /\ CrossEntropySoftmaxError.grad self shifted targets
    = CrossEntropySoftmaxError.grad self outputs targets.
Proof.
  intros Ho _ _ Hn shifted.
  destruct (Nat.eq_dec (ncols outputs) 0) as [E|E].
  - unfold CrossEntropySoftmaxError.__call__,
      CrossEntropySoftmaxError.unregularized_cost,
      CrossEntropySoftmaxError.grad, max_axis1.
    unfold shifted; rewrite ncols_ufunc, E; split; reflexivity.
  - assert (Hm : (1 <= ncols outputs)%nat) by lia.
    pose proof (is_ndarray_has_shape outputs Ho) as Ho'.
    assert (Hs : has_shape (nrows outputs) (ncols outputs) shifted)
      by apply has_shape_ufunc, Ho'.
    assert (El : map log_softmax_row shifted = map log_softmax_row outputs).
    { unfold shifted, ufunc; rewrite map_map.
      apply map_ext; intros r; apply log_softmax_row_shift. }
    assert (Es : map softmax_row shifted = map softmax_row outputs).
    { unfold shifted, ufunc; rewrite map_map.
      apply map_ext; intros r; apply softmax_row_shift. }
    unfold CrossEntropySoftmaxError.__call__.
    rewrite !(softmax_unregularized_cost_rows _ _ _ _ Hs Hn Hm).
    rewrite !(softmax_unregularized_cost_rows _ _ _ _ Ho' Hn Hm).
    rewrite !(softmax_grad_rows _ _ _ _ _ Hs Hn Hm).
    rewrite !(softmax_grad_rows _ _ _ _ _ Ho' Hn Hm).
    rewrite El, Es; split; reflexivity.
Qed.

(** C7. The gradient of CrossEntropySoftmaxError is the same for any two
    model states: regularizer kind, coefficient and parameters do not
    enter it. *)
Theorem CrossEntropySoftmax_grad_ignores_model
    (self1 self2 : CrossEntropySoftmaxError.t) (outputs targets : ndarray) :
  CrossEntropySoftmaxError.grad self1 outputs targets
  = CrossEntropySoftmaxError.grad self2 outputs targets.
Proof. reflexivity. Qed.

Lemma CrossEntropySoftmax_shift_invariant_witness :
  let self := CrossEntropySoftmaxError.__init__ no_regularizer in
  let shifted := ufunc (fun x => x + 5) [[1; 2; 3]] in
  CrossEntropySoftmaxError.__call__ self shifted [[0; 0; 1]]
    = CrossEntropySoftmaxError.__call__ self [[1; 2; 3]] [[0; 0; 1]]
  /\ CrossEntropySoftmaxError.grad self shifted [[0; 0; 1]]
    = CrossEntropySoftmaxError.grad self [[1; 2; 3]] [[0; 0; 1]].
Proof.
  intros self shifted.
  apply CrossEntropySoftmax_shift_invariant.
  - repeat constructor.
  - repeat constructor.
  - reflexivity.
  - simpl; lia.
Defined.

(** *** The value without a penalty *)

Lemma map_by_index {B : Type} (g : R -> B) (r : list R) :
  map g r = map (fun j => g (nth j r 0)) (seq 0 (length r)).
Proof. rewrite <- (map_nth_seq 0 r) at 1; apply map_map. Qed.

Lemma log_softmax_tabulate n m (outputs : ndarray) :
  has_shape n m outputs -> (1 <= n)%nat ->
  map log_softmax_row outputs = tabulate n m (spec_log_prob outputs).
Proof.
  intros Ho Hn; pose proof (has_shape_ncols n m outputs Ho Hn) as Hm.
  destruct Ho as [Hlen Hr]; unfold tabulate.
  rewrite <- (map_nth_seq [] outputs) at 1; rewrite map_map, Hlen.
  apply map_ext_in; intros i Hi; apply in_seq in Hi.
  assert (Hrow : length (nth i outputs []) = m).
  { rewrite Forall_forall in Hr; apply Hr, nth_In; lia. }
  unfold log_softmax_row, shifted_row, spec_log_prob, item; cbv zeta.
  rewrite Hm, !map_map, (map_by_index _ (nth i outputs [])), Hrow.
  apply map_ext; intros j; do 2 f_equal.
  unfold big_sum; rewrite (map_by_index _ (nth i outputs [])), Hrow.
  reflexivity.
Qed.

Lemma unregularized_cost_spec (outputs targets : ndarray) :
  is_ndarray outputs -> is_ndarray targets ->
  shape outputs = shape targets ->
  (1 <= nrows outputs)%nat -> (1 <= ncols outputs)%nat ->
  CrossEntropySoftmaxError.unregularized_cost outputs targets
  = Ok (spec_cross_entropy_softmax outputs targets).
Proof.
  intros Ho Ht Hs Hn Hm.
  pose proof (is_ndarray_has_shape outputs Ho) as Ho'.
  pose proof (has_shape_same outputs targets Ho Ht Hs) as Ht'.
  rewrite (softmax_unregularized_cost_rows _ _ _ _ Ho' Hn Hm).
  rewrite (log_softmax_tabulate _ _ _ Ho' Hn).
  rewrite <- (tabulate_item _ _ targets Ht') at 1.
  rewrite binop_tabulate; cbn [bind].
  rewrite sum_axis1_tabulate, mean1_map_seq; reflexivity.
Qed.

Lemma py_eq_false (x : option string) (s : string) :
  x <> Some s -> py_eq x s = false.
Proof.
  destruct x as [x'|]; simpl; [|reflexivity].
  intros H; apply String.eqb_neq; congruence.
Qed.

(** C6. With a regularizer kind that is neither "L1" nor "L2" ([None]
    included) the value of CrossEntropySoftmaxError is the loss without
    a penalty: the call has the result of the computation before the
    regularization branch, and on equal-shaped arrays with at least one
    row and one column that result is the cross-entropy of the
    specification. *)
Theorem unknown_regularizer_adds_nothing :
  forall (self : CrossEntropySoftmaxError.t) (outputs targets : ndarray),
    regularizer (CrossEntropySoftmaxError.model self) <> Some "L1"%string ->
    regularizer (CrossEntropySoftmaxError.model self) <> Some "L2"%string ->
    CrossEntropySoftmaxError.__call__ self outputs targets
      = CrossEntropySoftmaxError.unregularized_cost outputs targets
    /\ (is_ndarray outputs -> is_ndarray targets ->
        shape outputs = shape targets ->
        (1 <= nrows outputs)%nat -> (1 <= ncols outputs)%nat ->
        CrossEntropySoftmaxError.__call__ self outputs targets
          = Ok (spec_cross_entropy_softmax outputs targets)).
Proof.
  intros self o t H1 H2.
  assert (E : CrossEntropySoftmaxError.__call__ self o t
              = CrossEntropySoftmaxError.unregularized_cost o t).
  { unfold CrossEntropySoftmaxError.__call__.
    rewrite (py_eq_false _ _ H1), (py_eq_false _ _ H2).
    destruct (CrossEntropySoftmaxError.unregularized_cost o t); reflexivity. }
  split; [exact E|].
  intros; rewrite E; apply unregularized_cost_spec; assumption.
Qed.

Lemma unknown_regularizer_adds_nothing_witness :
  let self :=
    CrossEntropySoftmaxError.__init__
      {| params := [Axis [Scalar 3; Scalar 4]];
         regularizer := Some "l2"%string;
         regularizer_lambda := 1 |} in
  CrossEntropySoftmaxError.__call__ self [[1; 2; 3]] [[0; 0; 1]]
  = Ok (spec_cross_entropy_softmax [[1; 2; 3]] [[0; 0; 1]]).
Proof.
  intros self.
  apply (unknown_regularizer_adds_nothing self [[1; 2; 3]] [[0; 0; 1]]).
  - discriminate.
  - discriminate.
  - repeat constructor.
  - repeat constructor.
  - reflexivity.
  - simpl; lia.
  - simpl; lia.
Defined.

(** *** The L2 penalty *)

Lemma get_weights_ok (self : CrossEntropySoftmaxError.t) :
  params (CrossEntropySoftmaxError.model self) <> [] ->
  CrossEntropySoftmaxError._get_weights self
  = Ok (concat (map flatten (params (CrossEntropySoftmaxError.model self)))).
Proof.
  unfold CrossEntropySoftmaxError._get_weights, np_concatenate.
  destruct (params (CrossEntropySoftmaxError.model self)); simpl; congruence.
Qed.

(** C5, as the code has it. For a model with regularizer kind "L2",
    coefficient [L] and at least one parameter array, the value of
    CrossEntropySoftmaxError is the value for the same model without a
    regularizer plus [L] times the Euclidean norm of the parameter
    arrays, flattened and concatenated in their order; with [L = 0] the
    two values are equal. *)
Theorem L2_penalty_is_added
    (self : CrossEntropySoftmaxError.t) (outputs targets : ndarray) :
  let m := CrossEntropySoftmaxError.model self in
  let L := regularizer_lambda m in
  let weights := concat (map flatten (params m)) in
  let plain := CrossEntropySoftmaxError.__init__ (with_regularizer m None) in
  regularizer m = Some "L2"%string ->
  params m <> [] ->
  CrossEntropySoftmaxError.__call__ self outputs targets
    = fmap (fun v => v + L * norm2 weights)
        (CrossEntropySoftmaxError.__call__ plain outputs targets)
  /\ (L = 0 ->
      CrossEntropySoftmaxError.__call__ self outputs targets
      = CrossEntropySoftmaxError.__call__ plain outputs targets).
Proof.
  intros m L weights plain Hkind Hparams.
  assert (E : CrossEntropySoftmaxError.__call__ self outputs targets
              = fmap (fun v => v + L * norm2 weights)
                  (CrossEntropySoftmaxError.__call__ plain outputs targets)).
  { unfold CrossEntropySoftmaxError.__call__; fold m.
    rewrite Hkind, (get_weights_ok self Hparams); simpl.
    destruct (CrossEntropySoftmaxError.unregularized_cost outputs targets);
      reflexivity. }
  split; [exact E|].
  intros HL; rewrite E, HL.
  destruct (CrossEntropySoftmaxError.__call__ plain outputs targets);
    simpl; [f_equal; lra | reflexivity].
Qed.

Lemma L2_penalty_is_added_witness :
  let m := {| params := [Axis [Axis [Scalar 3; Scalar 0]]; Axis [Scalar 4]];
              regularizer := Some "L2"%string;
              regularizer_lambda := 2 |} in
  let self := CrossEntropySoftmaxError.__init__ m in
  let plain := CrossEntropySoftmaxError.__init__ (with_regularizer m None) in
  CrossEntropySoftmaxError.__call__ self [[1; 2; 3]] [[0; 0; 1]]
  = fmap (fun v => v + 2 * norm2 [3; 0; 4])
      (CrossEntropySoftmaxError.__call__ plain [[1; 2; 3]] [[0; 0; 1]]).
Proof.
  intros m self plain.
  apply (L2_penalty_is_added self [[1; 2; 3]] [[0; 0; 1]]).
  - reflexivity.
  - discriminate.
Defined.

(** C5 as stated fails for a model without parameter arrays: with kind
    "L2" the call ends in the ValueError of [np.concatenate], also for
    [L = 0], while without a regularizer it returns the loss. *)
Lemma L2_without_parameters_raises :
  let m := {| params := [];
              regularizer := Some "L2"%string;
              regularizer_lambda := 0 |} in
  let self := CrossEntropySoftmaxError.__init__ m in
  let plain := CrossEntropySoftmaxError.__init__ (with_regularizer m None) in
  CrossEntropySoftmaxError.__call__ self [[1; 2; 3]] [[0; 0; 1]]
    = Raise (ValueError "need at least one array to concatenate")
  /\ CrossEntropySoftmaxError.__call__ plain [[1; 2; 3]] [[0; 0; 1]]
    = Ok (spec_cross_entropy_softmax [[1; 2; 3]] [[0; 0; 1]]).
Proof.
  intros m self plain.
  assert (E : CrossEntropySoftmaxError.unregularized_cost
                [[1; 2; 3]] [[0; 0; 1]]
              = Ok (spec_cross_entropy_softmax [[1; 2; 3]] [[0; 0; 1]])).
  { apply unregularized_cost_spec;
      try (repeat constructor); try reflexivity; simpl; lia. }
  unfold CrossEntropySoftmaxError.__call__; rewrite E.
  split; reflexivity.
Qed.

(** *** The rows of the gradient *)

Lemma Rsum_softmax_row (r : list R) : r <> [] -> Rsum (softmax_row r) = 1.
Proof.
  intros Hr; unfold softmax_row; cbv zeta.
  set (e := map exp (shifted_row r)).
  assert (Hpos : 0 < Rsum e).
  { apply Rsum_pos.
    - unfold e, shifted_row; destruct r; [congruence | discriminate].
    - unfold e; apply Forall_map, Forall_forall; intros x _; apply exp_pos. }
  rewrite (Rsum_map_scal (/ Rsum e)) by reflexivity.
  apply Rinv_r; lra.
Qed.

Lemma length_softmax_row (r : list R) : length (softmax_row r) = length r.
Proof. unfold softmax_row, shifted_row; rewrite !length_map; reflexivity. Qed.

(** C10. When every row of the targets sums to one, every row of the
    gradient of CrossEntropySoftmaxError sums to zero. *)
Theorem CrossEntropySoftmax_grad_rows_sum_to_zero
    (self : CrossEntropySoftmaxError.t) (outputs targets : ndarray) :
  is_ndarray outputs -> is_ndarray targets ->
  shape outputs = shape targets -> (1 <= nrows outputs)%nat ->
  Forall (fun r => Rsum r = 1) targets ->
  exists g : ndarray,
    CrossEntropySoftmaxError.grad self outputs targets = Ok g
    /\ Forall (fun r => Rsum r = 0) g.
Proof.
  intros Ho Ht Hs Hn Hone.
  pose proof (is_ndarray_has_shape outputs Ho) as Ho'.
  pose proof (has_shape_same outputs targets Ho Ht Hs) as Ht'.
  assert (Hm : (1 <= ncols outputs)%nat).
  { injection Hs as Hrows Hcols; rewrite Hcols.
    destruct targets as [|r t']; [simpl in Hrows; lia|].
    inversion Hone as [|? ? Hr _]; subst.
    destruct r; simpl in *; [lra | lia]. }
  rewrite (softmax_grad_rows _ _ _ _ _ Ho' Hn Hm).
  rewrite (binop_has_shape Rminus _ _ _ _
             (has_shape_softmax _ _ _ Ho') Ht'); cbn [bind].
  eexists; split; [reflexivity|].
  unfold ufunc; apply Forall_map, Forall_map2.
  intros x y Hx Hy; apply in_map_iff in Hx; destruct Hx as (r & <- & Hr).
  destruct Ho' as [_ Hro], Ht' as [_ Hrt].
  rewrite Forall_forall in Hro, Hrt, Hone.
  rewrite (Rsum_map_scal (/ INR (nrows outputs))) by reflexivity.
  rewrite Rsum_map2_minus
    by (rewrite length_softmax_row, (Hro r Hr), (Hrt y Hy); reflexivity).
  rewrite Rsum_softmax_row, (Hone y Hy); [lra|].
  intros ->; specialize (Hro [] Hr); simpl in Hro; lia.
Qed.

Lemma CrossEntropySoftmax_grad_rows_sum_to_zero_witness :
  exists g : ndarray,
    CrossEntropySoftmaxError.grad
      (CrossEntropySoftmaxError.__init__ no_regularizer)
      [[1; 2; 3]; [0; 0; 0]] [[0; 0; 1]; [1 / 2; 1 / 2; 0]] = Ok g
    /\ Forall (fun r => Rsum r = 0) g.
Proof.
  apply CrossEntropySoftmax_grad_rows_sum_to_zero.
  - repeat constructor.
  - repeat constructor.
  - reflexivity.
  - simpl; lia.
  - repeat constructor; simpl; lra.
Defined.

(** ** Doubling the batch *)

Lemma tile_batch_duplication : duplication (@tile_batch).
Proof.
  constructor; unfold tile_batch; intros.
  - apply map_app.
  - apply map2_app; assumption.
  - rewrite length_app; lia.
  - apply Forall_app; split; assumption.
  - rewrite Rsum_app; lra.
  - rewrite concat_app, Rsum_app; lra.
  - rewrite concat_app, length_app; lia.
Qed.

Lemma repeat_rows_duplication : duplication (@repeat_rows).
Proof.
  constructor; unfold repeat_rows.
  - intros A B f l; induction l as [|x l IH]; simpl; congruence.
  - intros A B C f l1; induction l1 as [|x l1 IH]; intros [|y l2] H;
      simpl in *; try discriminate; auto.
    do 2 f_equal; apply IH; lia.
  - intros A l; induction l as [|x l IH]; simpl in *; lia.
  - intros A P l H; induction H; simpl; auto.
  - intros v; induction v as [|x v IH]; simpl in *; lra.
  - intros a; induction a as [|r a IH]; simpl in *; [lra|].
    rewrite !Rsum_app, IH; lra.
  - intros a; induction a as [|r a IH]; simpl in *; [lia|].
    rewrite !length_app, IH; lia.
Qed.

Create HintDb shapes.

#[local] Hint Resolve has_shape_ufunc has_shape_map2 has_shape_softmax
  has_shape_log_softmax : shapes.

Section Doubling.

Variable D : forall A : Type, list A -> list A.
Hypothesis HD : duplication D.

Variables (n m : nat) (outputs targets : ndarray).
Hypothesis Ho : has_shape n m outputs.
Hypothesis Ht : has_shape n m targets.
Hypothesis Hn : (1 <= n)%nat.

Lemma has_shape_D (a : ndarray) :
  has_shape n m a -> has_shape (2 * n) m (D _ a).
Proof.
  intros [Hlen Hr]; split;
    [rewrite (D_length D HD), Hlen; reflexivity | apply (D_Forall D HD), Hr].
Qed.

Lemma ufunc_D (f : R -> R) (a : ndarray) :
  ufunc f (D _ a) = D _ (ufunc f a).
Proof. apply (D_map D HD). Qed.

Lemma binop_D (f : R -> R -> R) (a b : ndarray) :
  has_shape n m a -> has_shape n m b ->
  binop f (D _ a) (D _ b) = Ok (D _ (map2 (map2 f) a b)).
Proof.
  intros Ha Hb.
  rewrite (binop_has_shape f (2 * n) m) by (apply has_shape_D; assumption).
  rewrite (D_map2 D HD); [reflexivity|].
  destruct Ha as [-> _], Hb as [-> _]; reflexivity.
Qed.

Lemma sum_axis1_D (a : ndarray) : sum_axis1 (D _ a) = D _ (sum_axis1 a).
Proof. apply (D_map D HD). Qed.

Lemma mean1_D (v : vector) : (1 <= length v)%nat -> mean1 (D _ v) = mean1 v.
Proof.
  intros Hv; unfold mean1.
  rewrite (D_Rsum D HD), (D_length D HD), mult_INR.
  assert (INR (length v) <> 0) by (apply not_0_INR; lia).
  simpl INR; field; assumption.
Qed.

Lemma np_mean_D (a : ndarray) : np_mean (D _ a) = np_mean a.
Proof.
  unfold np_mean, size.
  rewrite (D_concat_Rsum D HD), (D_concat_length D HD), mult_INR.
  destruct (concat a) as [|x v] eqn:E.
  - simpl; unfold Rdiv; ring.
  - assert (INR (length (x :: v)) <> 0) by (apply not_0_INR; simpl; lia).
    simpl INR at 1; field; assumption.
Qed.

Lemma length_sum_axis1 (a : ndarray) :
  has_shape n m a -> (1 <= length (sum_axis1 a))%nat.
Proof.
  intros [Hlen _]; unfold sum_axis1; rewrite length_map, Hlen; exact Hn.
Qed.

(** The divisor of the gradient doubles with the batch. *)
Lemma grad_scale_D (k : nat) (a : ndarray) :
  k = n ->
  ufunc (fun x => x / INR (2 * k)) (D _ a)
  = D _ (ufunc (fun x => x / 2) (ufunc (fun x => x / INR k) a)).
Proof.
  intros ->; rewrite ufunc_D; f_equal.
  unfold ufunc; rewrite map_map; apply map_ext; intros r.
  rewrite map_map; apply map_ext; intros x.
  assert (INR n <> 0) by (apply not_0_INR; lia).
  rewrite mult_INR; simpl INR; field; assumption.
Qed.

Lemma batch_size_D : fst (shape (D _ outputs)) = (2 * fst (shape outputs))%nat.
Proof. unfold shape, nrows; cbn [fst]; apply (D_length D HD). Qed.

Lemma batch_size_n : fst (shape outputs) = n.
Proof. unfold shape, nrows; cbn [fst]; apply Ho. Qed.

Lemma SumOfSquaredDiffs_D :
  SumOfSquaredDiffsError.__call__ (D _ outputs) (D _ targets)
    = SumOfSquaredDiffsError.__call__ outputs targets
  /\ SumOfSquaredDiffsError.grad (D _ outputs) (D _ targets)
    = fmap (halved D) (SumOfSquaredDiffsError.grad outputs targets).
Proof.
  unfold SumOfSquaredDiffsError.__call__, SumOfSquaredDiffsError.grad.
  rewrite !binop_D, !(binop_has_shape Rminus n m) by assumption.
  cbn [bind fmap]; split; f_equal.
  - rewrite ufunc_D, sum_axis1_D, mean1_D; auto with shapes.
    apply length_sum_axis1; auto with shapes.
  - rewrite batch_size_D; apply grad_scale_D, batch_size_n.
Qed.

Lemma BinaryCrossEntropy_D :
  BinaryCrossEntropyError.__call__ (D _ outputs) (D _ targets)
    = BinaryCrossEntropyError.__call__ outputs targets
  /\ BinaryCrossEntropyError.grad (D _ outputs) (D _ targets)
    = fmap (halved D) (BinaryCrossEntropyError.grad outputs targets).
Proof.
  split.
  - rewrite (BinaryCrossEntropy_raises_has_shape (2 * n) m),
      (BinaryCrossEntropy_raises_has_shape n m);
      auto using has_shape_D.
  - unfold BinaryCrossEntropyError.grad.
    rewrite !ufunc_D, !binop_D by auto with shapes; cbn [bind].
    rewrite binop_D by auto with shapes; cbn [bind].
    rewrite !(binop_has_shape _ n m) by auto with shapes; cbn [bind].
    rewrite !(binop_has_shape _ n m) by auto with shapes; cbn [bind fmap].
    f_equal; rewrite batch_size_D; apply grad_scale_D, batch_size_n.
Qed.

Lemma sigmoid_D :
  BinaryCrossEntropySigmoidError.sigmoid (D _ outputs)
  = D _ (BinaryCrossEntropySigmoidError.sigmoid outputs).
Proof.
  unfold BinaryCrossEntropySigmoidError.sigmoid, np_exp.
  rewrite !ufunc_D; reflexivity.
Qed.

Lemma has_shape_sigmoid :
  has_shape n m (BinaryCrossEntropySigmoidError.sigmoid outputs).
Proof.
  unfold BinaryCrossEntropySigmoidError.sigmoid, np_exp; auto with shapes.
Qed.

Lemma BinaryCrossEntropySigmoid_D :
  BinaryCrossEntropySigmoidError.__call__ (D _ outputs) (D _ targets)
    = BinaryCrossEntropySigmoidError.__call__ outputs targets
  /\ BinaryCrossEntropySigmoidError.grad (D _ outputs) (D _ targets)
    = fmap (halved D) (BinaryCrossEntropySigmoidError.grad outputs targets).
Proof.
  pose proof has_shape_sigmoid as Hp.
  unfold BinaryCrossEntropySigmoidError.__call__,
    BinaryCrossEntropySigmoidError.grad; cbv zeta.
  rewrite sigmoid_D; unfold np_log; split.
  - rewrite !ufunc_D, !binop_D by auto with shapes; cbn [bind].
    rewrite binop_D by auto with shapes; cbn [bind].
    rewrite !(binop_has_shape _ n m) by auto with shapes; cbn [bind].
    rewrite !(binop_has_shape _ n m) by auto with shapes; cbn [bind].
    f_equal; f_equal; apply np_mean_D.
  - rewrite binop_D, (binop_has_shape _ n m) by auto with shapes.
    cbn [bind fmap].
    f_equal; rewrite batch_size_D; apply grad_scale_D, batch_size_n.
Qed.

Lemma CrossEntropy_D :
  CrossEntropyError.__call__ (D _ outputs) (D _ targets)
    = CrossEntropyError.__call__ outputs targets
  /\ CrossEntropyError.grad (D _ outputs) (D _ targets)
    = fmap (halved D) (CrossEntropyError.grad outputs targets).
Proof.
  unfold CrossEntropyError.__call__, CrossEntropyError.grad, np_log.
  rewrite !ufunc_D, !binop_D, !(binop_has_shape _ n m) by auto with shapes.
  cbn [bind fmap]; split; f_equal.
  - rewrite sum_axis1_D, mean1_D; auto with shapes.
    apply length_sum_axis1; auto with shapes.
  - rewrite ufunc_D, batch_size_D; apply grad_scale_D, batch_size_n.
Qed.

Lemma CrossEntropySoftmax_D (self : CrossEntropySoftmaxError.t) :
  CrossEntropySoftmaxError.__call__ self (D _ outputs) (D _ targets)
    = CrossEntropySoftmaxError.__call__ self outputs targets
  /\ CrossEntropySoftmaxError.grad self (D _ outputs) (D _ targets)
    = fmap (halved D) (CrossEntropySoftmaxError.grad self outputs targets).
Proof.
  pose proof (has_shape_D outputs Ho) as Ho2.
  assert (Hn2 : (1 <= 2 * n)%nat) by lia.
  destruct (Nat.eq_dec m 0) as [E|E].
  - unfold CrossEntropySoftmaxError.__call__,
      CrossEntropySoftmaxError.unregularized_cost,
      CrossEntropySoftmaxError.grad, max_axis1.
    rewrite (has_shape_ncols _ _ _ Ho2 Hn2), (has_shape_ncols _ _ _ Ho Hn), E.
    split; reflexivity.
  - assert (Hm : (1 <= m)%nat) by lia.
    unfold CrossEntropySoftmaxError.__call__.
    rewrite (softmax_unregularized_cost_rows _ _ _ _ Ho2 Hn2 Hm).
    rewrite (softmax_unregularized_cost_rows _ _ _ _ Ho Hn Hm).
    rewrite (softmax_grad_rows _ _ _ _ _ Ho2 Hn2 Hm).
    rewrite (softmax_grad_rows _ _ _ _ _ Ho Hn Hm).
    rewrite !(D_map D HD).
    rewrite !binop_D, !(binop_has_shape _ n m) by eauto with shapes.
    cbn [bind fmap]; split.
    + rewrite sum_axis1_D, mean1_D; [reflexivity|].
      apply length_sum_axis1; eauto with shapes.
    + f_equal; apply grad_scale_D; reflexivity.
Qed.

End Doubling.

(** C9, as the code has it. Duplicating every row of outputs and targets
    leaves the result of the value unchanged for every variant.  The
    gradient is not unchanged: the rows of the gradient of the doubled
    batch are the rows of the original gradient, duplicated the same
    way, with every entry halved, because the divisor [batch_size] has
    doubled. *)
Theorem doubled_batch_value_and_grad
    (D : forall A : Type, list A -> list A) (error : error_function)
    (outputs targets : ndarray) :
  D = @tile_batch \/ D = @repeat_rows ->
  is_ndarray outputs -> is_ndarray targets ->
  shape outputs = shape targets -> (1 <= nrows outputs)%nat ->
  value error (D _ outputs) (D _ targets) = value error outputs targets
  /\ gradient error (D _ outputs) (D _ targets)
     = fmap (fun g => D _ (ufunc (fun x => x / 2) g))
         (gradient error outputs targets).
Proof.
  intros HD Ho Ht Hs Hn.
  assert (Hdup : duplication D)
    by (destruct HD as [-> | ->];
        [apply tile_batch_duplication | apply repeat_rows_duplication]).
  pose proof (is_ndarray_has_shape outputs Ho) as Ho'.
  pose proof (has_shape_same outputs targets Ho Ht Hs) as Ht'.
  destruct error; simpl.
  - apply (SumOfSquaredDiffs_D D Hdup _ _ _ _ Ho' Ht' Hn).
  - apply (BinaryCrossEntropy_D D Hdup _ _ _ _ Ho' Ht' Hn).
  - apply (BinaryCrossEntropySigmoid_D D Hdup _ _ _ _ Ho' Ht' Hn).
  - apply (CrossEntropy_D D Hdup _ _ _ _ Ho' Ht' Hn).
  - apply (CrossEntropySoftmax_D D Hdup _ _ _ _ Ho' Ht' Hn).
Qed.

Lemma doubled_batch_value_and_grad_witness :
  let outputs := [[1; 2; 3]; [0; 1; 0]] in
  let targets := [[0; 0; 1]; [0; 1; 0]] in
  let error :=
    CrossEntropySoftmax (CrossEntropySoftmaxError.__init__ no_regularizer) in
  value error (repeat_rows outputs) (repeat_rows targets)
    = value error outputs targets
  /\ gradient error (repeat_rows outputs) (repeat_rows targets)
     = fmap (fun g => repeat_rows (ufunc (fun x => x / 2) g))
         (gradient error outputs targets).
Proof.
  intros outputs targets error.
  apply (doubled_batch_value_and_grad (@repeat_rows)).
  - right; reflexivity.
  - repeat constructor.
  - repeat constructor.
  - reflexivity.
  - simpl; lia.
Defined.

(** C9 as stated fails for the gradient: for outputs [[1, 2]] and
    targets [[0, 0]] the gradient row is [1, 2], and in the doubled
    batch the row of the same sample is [1/2, 1]. *)
Lemma doubled_batch_changes_gradient :
  let outputs := [[1; 2]] in
  let targets := [[0; 0]] in
  tile_batch outputs = repeat_rows outputs
  /\ tile_batch targets = repeat_rows targets
  /\ gradient SumOfSquaredDiffs outputs targets = Ok [[1; 2]]
  /\ gradient SumOfSquaredDiffs (tile_batch outputs) (tile_batch targets)
     = Ok [[1 / 2; 1]; [1 / 2; 1]]
  /\ [1 / 2; 1] <> [1; 2].
Proof.
  cbv zeta; repeat split.
  - unfold gradient, SumOfSquaredDiffsError.grad; simpl.
    repeat f_equal; lra.
  - unfold gradient, SumOfSquaredDiffsError.grad; simpl.
    repeat f_equal; lra.
  - intros H; injection H; intros; lra.
Qed.

(** * Further properties of the error functions *)

(** ** CrossEntropyError and the gradient of BinaryCrossEntropyError *)








(** ** The shape of the gradient *)

Lemma gradient_has_shape (error : error_function) n m
    (outputs targets : ndarray) :
  has_shape n m outputs -> has_shape n m targets ->
  (takes_row_max error = true -> (1 <= n)%nat /\ (1 <= m)%nat) ->
  exists g, gradient error outputs targets = Ok g /\ has_shape n m g.
Proof.
  intros Ho Ht Hm; destruct error; simpl in *.
  - unfold SumOfSquaredDiffsError.grad.
    rewrite (binop_has_shape _ n m) by assumption; cbn [bind].
    eexists; split; [reflexivity | auto with shapes].
  - unfold BinaryCrossEntropyError.grad.
    rewrite !(binop_has_shape _ n m) by auto with shapes; cbn [bind].
    rewrite (binop_has_shape _ n m) by auto with shapes; cbn [bind].
    eexists; split; [reflexivity | auto with shapes].
  - unfold BinaryCrossEntropySigmoidError.grad; cbv zeta.
    rewrite (binop_has_shape _ n m);
      [|eapply has_shape_sigmoid; eassumption | assumption].
    cbn [bind]; eexists; split; [reflexivity|].
    apply has_shape_ufunc, has_shape_map2;
      [eapply has_shape_sigmoid; eassumption | assumption].
  - unfold CrossEntropyError.grad.
    rewrite (binop_has_shape _ n m) by assumption; cbn [bind].
    eexists; split; [reflexivity | auto with shapes].
  - destruct (Hm eq_refl) as [Hn Hm'].
    rewrite (softmax_grad_rows _ _ _ _ _ Ho Hn Hm').
    rewrite (binop_has_shape _ n m) by auto with shapes; cbn [bind].
    eexists; split; [reflexivity | auto with shapes].
Qed.

(** X3. On equal-shaped arrays every variant returns a gradient, and the
    gradient has the shape of the outputs; CrossEntropySoftmaxError needs
    at least one row and one column for it. *)
Theorem gradient_has_shape_of_outputs
    (error : error_function) (outputs targets : ndarray) :
  is_ndarray outputs -> is_ndarray targets ->
  shape outputs = shape targets ->
  (takes_row_max error = true ->
   (1 <= nrows outputs)%nat /\ (1 <= ncols outputs)%nat) ->
  exists g : ndarray,
    gradient error outputs targets = Ok g
    /\ is_ndarray g /\ shape g = shape outputs.
Proof.
  intros Ho Ht Hs Hm.
  pose proof (is_ndarray_has_shape outputs Ho) as Ho'.
  pose proof (has_shape_same outputs targets Ho Ht Hs) as Ht'.
  destruct (gradient_has_shape error _ _ _ _ Ho' Ht' Hm) as (g & Hg & Hsh).
  exists g; split; [exact Hg|]; split.
  - eapply has_shape_is_ndarray; exact Hsh.
  - eapply has_shape_eq; eassumption.
Qed.

Lemma gradient_has_shape_of_outputs_witness :
  exists g : ndarray,
    gradient
      (CrossEntropySoftmax (CrossEntropySoftmaxError.__init__ no_regularizer))
      [[1; 2; 3]; [0; 1; 0]] [[0; 0; 1]; [0; 1; 0]] = Ok g
    /\ is_ndarray g /\ shape g = shape [[1; 2; 3]; [0; 1; 0]].
Proof.
  apply gradient_has_shape_of_outputs.
  - repeat constructor.
  - repeat constructor.
  - reflexivity.
  - intros _; simpl; lia.
Defined.

(** X4. Outputs with at least one row and rows of length zero: both
    methods of CrossEntropySoftmaxError end with the ValueError of the
    row maximum, whatever the model and the targets are. *)
Theorem zero_columns_raise_in_softmax
    (self : CrossEntropySoftmaxError.t) (outputs targets : ndarray) :
  (1 <= nrows outputs)%nat -> ncols outputs = 0%nat ->
  raises_ValueError (CrossEntropySoftmaxError.__call__ self outputs targets)
  /\ raises_ValueError (CrossEntropySoftmaxError.grad self outputs targets).
Proof.
  intros Hn Hm; split.
  - unfold CrossEntropySoftmaxError.__call__,
      CrossEntropySoftmaxError.unregularized_cost, max_axis1.
    rewrite Hm; eexists; reflexivity.
  - unfold CrossEntropySoftmaxError.grad, max_axis1.
    rewrite Hm; eexists; reflexivity.
Qed.

Lemma zero_columns_raise_in_softmax_witness :
  let self := CrossEntropySoftmaxError.__init__ no_regularizer in
  raises_ValueError
    (CrossEntropySoftmaxError.__call__ self [[]; []] [[1; 2]; [3; 4]])
  /\ raises_ValueError
       (CrossEntropySoftmaxError.grad self [[]; []] [[1; 2]; [3; 4]]).
Proof.
  intros self.
  apply zero_columns_raise_in_softmax.
  - simpl; lia.
  - reflexivity.
Defined.

(** ** The regularization branch *)

Lemma binop_ok_or_raise (f : R -> R -> R) (a b : ndarray) :
  (exists c, binop f a b = Ok c) \/ binop f a b = Raise broadcast_error.
Proof.
  unfold binop; destruct (broadcast_shapes (shape a) (shape b)) as [[n m]|];
    [left; eexists; reflexivity | right; reflexivity].
Qed.

Lemma unregularized_cost_ok_or_raise (outputs targets : ndarray) :
  (exists v, CrossEntropySoftmaxError.unregularized_cost outputs targets
             = Ok v)
  \/ raises_ValueError
       (CrossEntropySoftmaxError.unregularized_cost outputs targets).
Proof.
  unfold CrossEntropySoftmaxError.unregularized_cost, max_axis1.
  destruct (ncols outputs =? 0)%nat; [right; eexists; reflexivity|].
  cbn [bind].
  destruct (binop_ok_or_raise Rminus outputs (column (map row_max outputs)))
    as [[a ->] | ->]; [|right; eexists; reflexivity].
  cbn [bind].
  destruct (binop_ok_or_raise Rminus a
              (column (map ln (sum_axis1 (np_exp a)))))
    as [[b ->] | ->]; [|right; eexists; reflexivity].
  cbn [bind].
  destruct (binop_ok_or_raise Rmult targets b)
    as [[c ->] | ->]; [|right; eexists; reflexivity].
  left; eexists; reflexivity.
Qed.

(** X5. For a model with regularizer kind "L1", coefficient [L] and at
    least one parameter array, the value of CrossEntropySoftmaxError is
    the value for the same model without a regularizer plus [L] times
    the sum of the absolute values of all parameter entries. *)
Theorem L1_penalty_is_added
    (self : CrossEntropySoftmaxError.t) (outputs targets : ndarray) :
  let m := CrossEntropySoftmaxError.model self in
  let L := regularizer_lambda m in
  let weights := concat (map flatten (params m)) in
  let plain := CrossEntropySoftmaxError.__init__ (with_regularizer m None) in
  regularizer m = Some "L1"%string ->
  params m <> [] ->
  CrossEntropySoftmaxError.__call__ self outputs targets
  = fmap (fun v => v + L * Rsum (map Rabs weights))
      (CrossEntropySoftmaxError.__call__ plain outputs targets).
Proof.
  intros m L weights plain Hkind Hparams.
  unfold CrossEntropySoftmaxError.__call__; fold m.
  rewrite Hkind, (get_weights_ok self Hparams); simpl.
  destruct (CrossEntropySoftmaxError.unregularized_cost outputs targets);
    reflexivity.
Qed.

Lemma L1_penalty_is_added_witness :
  let m := {| params := [Axis [Axis [Scalar 3; Scalar 0]]; Axis [Scalar (-4)]];
              regularizer := Some "L1"%string;
              regularizer_lambda := 2 |} in
  let self := CrossEntropySoftmaxError.__init__ m in
  let plain := CrossEntropySoftmaxError.__init__ (with_regularizer m None) in
  CrossEntropySoftmaxError.__call__ self [[1; 2; 3]] [[0; 0; 1]]
  = fmap (fun v => v + 2 * Rsum (map Rabs [3; 0; -4]))
      (CrossEntropySoftmaxError.__call__ plain [[1; 2; 3]] [[0; 0; 1]]).
Proof.
  intros m self plain.
  apply (L1_penalty_is_added self [[1; 2; 3]] [[0; 0; 1]]).
  - reflexivity.
  - discriminate.
Defined.

(** X6. With regularizer kind "L1" or "L2" and a model without parameter
    arrays the value of CrossEntropySoftmaxError never returns: for all
    outputs and targets the call ends with a ValueError. *)
Theorem regularizer_without_parameters_raises
    (self : CrossEntropySoftmaxError.t) (outputs targets : ndarray) :
  reads_params (regularizer (CrossEntropySoftmaxError.model self)) = true ->
  params (CrossEntropySoftmaxError.model self) = [] ->
  raises_ValueError (CrossEntropySoftmaxError.__call__ self outputs targets).
Proof.
  intros Hkind Hparams; unfold CrossEntropySoftmaxError.__call__.
  destruct (unregularized_cost_ok_or_raise outputs targets)
    as [[v ->] | H]; [|apply bind_raises, H].
  cbn [bind]; unfold CrossEntropySoftmaxError._get_weights.
  rewrite Hparams; unfold reads_params in Hkind; simpl.
  destruct (py_eq _ "L1"); [eexists; reflexivity|].
  destruct (py_eq _ "L2"); [eexists; reflexivity | discriminate].
Qed.

Lemma regularizer_without_parameters_raises_witness :
  raises_ValueError
    (CrossEntropySoftmaxError.__call__
       (CrossEntropySoftmaxError.__init__
          {| params := [];
             regularizer := Some "L1"%string;
             regularizer_lambda := 1 |})
       [[1; 2; 3]] [[0; 0; 1]]).
Proof.
  apply regularizer_without_parameters_raises; reflexivity.
Defined.

(** ** Signs and bounds *)


Lemma Rsum_nonneg (v : list R) : Forall (fun x => 0 <= x) v -> 0 <= Rsum v.
Proof. induction 1; simpl; lra. Qed.


Lemma Rsum_ge_entry (v : list R) (x : R) :
  Forall (fun y => 0 <= y) v -> In x v -> x <= Rsum v.
Proof.
  induction 1 as [|y v Hy Hv IH]; simpl; [tauto|].
  pose proof (Rsum_nonneg v Hv).
  intros [-> | Hin]; [lra | specialize (IH Hin); lra].
Qed.

Lemma Forall_exp_nonneg (s : list R) : Forall (fun y => 0 <= y) (map exp s).
Proof.
  apply Forall_map, Forall_forall; intros x _; left; apply exp_pos.
Qed.

Lemma Forall_exp_pos (s : list R) : Forall (fun y => 0 < y) (map exp s).
Proof. apply Forall_map, Forall_forall; intros x _; apply exp_pos. Qed.








Lemma softmax_row_bounds (r : list R) :
  Forall (fun p => 0 < p <= 1) (softmax_row r).
Proof.
  unfold softmax_row; cbv zeta.
  set (e := map exp (shifted_row r)).
  apply Forall_map, Forall_forall; intros x Hx.
  assert (Hx0 : 0 < x).
  { pose proof (Forall_exp_pos (shifted_row r)) as H.
    rewrite Forall_forall in H; apply H, Hx. }
  assert (HxS : x <= Rsum e)
    by (apply Rsum_ge_entry; [apply Forall_exp_nonneg | exact Hx]).
  assert (HS : 0 < Rsum e) by lra.
  assert (Hinv : 0 < / Rsum e) by (apply Rinv_0_lt_compat, HS).
  assert (Hone : Rsum e * / Rsum e = 1) by (apply Rinv_r; lra).
  unfold Rdiv; split; nra.
Qed.

Lemma scaled_difference_bound (p t : R) (n : nat) :
  (1 <= n)%nat -> 0 <= p <= 1 -> 0 <= t <= 1 ->
  Rabs ((p - t) / INR n) <= 1 / INR n.
Proof.
  intros Hn Hp Ht.
  assert (Hinv : 0 < / INR n) by (apply Rinv_0_lt_compat, lt_0_INR; lia).
  apply Rabs_le; unfold Rdiv; split; nra.
Qed.

(** X8. With targets whose entries lie in [0, 1], every entry of the
    gradient of CrossEntropySoftmaxError lies between [-1/batch_size]
    and [1/batch_size]: the softmax probabilities lie in (0, 1]. *)
Theorem CrossEntropySoftmax_grad_bounded
    (self : CrossEntropySoftmaxError.t) (outputs targets : ndarray) :
  is_ndarray outputs -> is_ndarray targets ->
  shape outputs = shape targets ->
  (1 <= nrows outputs)%nat -> (1 <= ncols outputs)%nat ->
  entries (fun x => 0 <= x <= 1) targets ->
  exists g : ndarray,
    CrossEntropySoftmaxError.grad self outputs targets = Ok g
    /\ entries (fun x => Rabs x <= 1 / INR (nrows outputs)) g.
Proof.
  intros Ho Ht Hs Hn Hm Hunit.
  pose proof (is_ndarray_has_shape outputs Ho) as Ho'.
  pose proof (has_shape_same outputs targets Ho Ht Hs) as Ht'.
  rewrite (softmax_grad_rows _ _ _ _ _ Ho' Hn Hm).
  rewrite (binop_has_shape _ _ _ _ _ (has_shape_softmax _ _ _ Ho') Ht').
  cbn [bind]; eexists; split; [reflexivity|].
  unfold entries, ufunc in *; apply Forall_map, Forall_map2.
  intros x y Hx Hy; apply in_map_iff in Hx; destruct Hx as (r & <- & _).
  apply Forall_map, Forall_map2; intros p t Hp Hin.
  pose proof (softmax_row_bounds r) as Hb.
  rewrite Forall_forall in Hb, Hunit.
  specialize (Hb p Hp); specialize (Hunit y Hy).
  rewrite Forall_forall in Hunit; specialize (Hunit t Hin).
  apply scaled_difference_bound; [exact Hn | lra | exact Hunit].
Qed.

Lemma CrossEntropySoftmax_grad_bounded_witness :
  exists g : ndarray,
    CrossEntropySoftmaxError.grad
      (CrossEntropySoftmaxError.__init__ no_regularizer)
      [[1; 2; 3]; [0; 0; 0]] [[0; 0; 1]; [1 / 2; 1 / 2; 0]] = Ok g
    /\ entries (fun x => Rabs x <= 1 / INR 2) g.
Proof.
  apply (CrossEntropySoftmax_grad_bounded
           (CrossEntropySoftmaxError.__init__ no_regularizer)
           [[1; 2; 3]; [0; 0; 0]] [[0; 0; 1]; [1 / 2; 1 / 2; 0]]).
  - repeat constructor.
  - repeat constructor.
  - reflexivity.
  - simpl; lia.
  - simpl; lia.
  - repeat constructor; lra.
Defined.

(** ** SumOfSquaredDiffsError is zero exactly on equal arrays *)







(** ** The shift by the row maximum cancels *)

Lemma exp_shifted_row (r : list R) :
  map exp (shifted_row r) = map (fun y => exp y * exp (- row_max r)) r.
Proof.
  unfold shifted_row; rewrite map_map; apply map_ext; intros y.
  rewrite <- exp_plus; reflexivity.
Qed.

Lemma Rsum_exp_shifted (r : list R) :
  Rsum (map exp (shifted_row r)) = Rsum (map exp r) * exp (- row_max r).
Proof.
  rewrite exp_shifted_row.
  rewrite <- (map_map exp (fun e => e * exp (- row_max r))).
  apply Rsum_map_scal; reflexivity.
Qed.

Lemma Rsum_exp_pos (r : list R) (y : R) : In y r -> 0 < Rsum (map exp r).
Proof.
  intros Hy.
  assert (exp y <= Rsum (map exp r))
    by (apply Rsum_ge_entry; [apply Forall_exp_nonneg | apply in_map, Hy]).
  pose proof (exp_pos y); lra.
Qed.

Lemma softmax_row_plain (r : list R) :
  softmax_row r = map (fun y => exp y / Rsum (map exp r)) r.
Proof.
  unfold softmax_row; cbv zeta.
  rewrite Rsum_exp_shifted, exp_shifted_row, map_map.
  apply map_ext_in; intros y Hy.
  pose proof (Rsum_exp_pos r y Hy); pose proof (exp_pos (- row_max r)).
  field; split; lra.
Qed.

Lemma log_softmax_row_plain (r : list R) :
  log_softmax_row r = map (fun y => y - ln (Rsum (map exp r))) r.
Proof.
  unfold log_softmax_row; cbv zeta.
  rewrite Rsum_exp_shifted; unfold shifted_row; rewrite map_map.
  apply map_ext_in; intros y Hy.
  rewrite ln_mult, ln_exp by (eauto using Rsum_exp_pos, exp_pos).
  ring.
Qed.

Lemma map_rows_tabulate n m (G : list R -> R -> R) (a : ndarray) :
  has_shape n m a ->
  map (fun r => map (G r) r) a
  = tabulate n m (fun i j => G (nth i a []) (item a i j)).
Proof.
  intros [Hlen Hr]; unfold tabulate.
  rewrite <- (map_nth_seq [] a) at 1; rewrite map_map, Hlen.
  apply map_ext_in; intros i Hi; apply in_seq in Hi.
  assert (Hrow : length (nth i a []) = m).
  { rewrite Forall_forall in Hr; apply Hr, nth_In; lia. }
  rewrite (map_by_index _ (nth i a [])), Hrow; reflexivity.
Qed.

Lemma Rsum_exp_row n m (a : ndarray) (i : nat) :
  has_shape n m a -> (i < n)%nat ->
  Rsum (map exp (nth i a [])) = big_sum m (fun k => exp (item a i k)).
Proof.
  intros [Hlen Hr] Hi.
  assert (Hrow : length (nth i a []) = m).
  { rewrite Forall_forall in Hr; apply Hr, nth_In; lia. }
  unfold big_sum; rewrite (map_by_index _ (nth i a [])), Hrow; reflexivity.
Qed.

Lemma log_softmax_plain_tabulate n m (outputs : ndarray) :
  has_shape n m outputs -> (1 <= n)%nat ->
  map log_softmax_row outputs = tabulate n m (plain_log_softmax outputs).
Proof.
  intros Ho Hn.
  rewrite (map_ext _ _ log_softmax_row_plain).
  rewrite (map_rows_tabulate n m (fun r y => y - ln (Rsum (map exp r))))
    by exact Ho.
  apply tabulate_ext; intros i j Hi Hj; unfold plain_log_softmax.
  rewrite (has_shape_ncols _ _ _ Ho Hn), (Rsum_exp_row n m) by assumption.
  reflexivity.
Qed.

Lemma softmax_plain_tabulate n m (outputs : ndarray) :
  has_shape n m outputs -> (1 <= n)%nat ->
  map softmax_row outputs = tabulate n m (plain_softmax outputs).
Proof.
  intros Ho Hn.
  rewrite (map_ext _ _ softmax_row_plain).
  rewrite (map_rows_tabulate n m (fun r y => exp y / Rsum (map exp r)))
    by exact Ho.
  apply tabulate_ext; intros i j Hi Hj; unfold plain_softmax.
  rewrite (has_shape_ncols _ _ _ Ho Hn), (Rsum_exp_row n m) by assumption.
  reflexivity.
Qed.

Lemma reads_params_false (kind : option string) :
  reads_params kind = false ->
  py_eq kind "L1" = false /\ py_eq kind "L2" = false.
Proof. unfold reads_params; apply orb_false_elim. Qed.

Lemma call_without_penalty (self : CrossEntropySoftmaxError.t)
    (outputs targets : ndarray) :
  reads_params (regularizer (CrossEntropySoftmaxError.model self)) = false ->
  CrossEntropySoftmaxError.__call__ self outputs targets
  = CrossEntropySoftmaxError.unregularized_cost outputs targets.
Proof.
  intros H; destruct (reads_params_false _ H) as [E1 E2].
  unfold CrossEntropySoftmaxError.__call__; rewrite E1, E2.
  destruct (CrossEntropySoftmaxError.unregularized_cost outputs targets);
    reflexivity.
Qed.

Lemma unregularized_cost_plain n m (outputs targets : ndarray) :
  has_shape n m outputs -> has_shape n m targets ->
  (1 <= n)%nat -> (1 <= m)%nat ->
  CrossEntropySoftmaxError.unregularized_cost outputs targets
  = Ok (- (big_sum n (fun i => big_sum m (fun j =>
             item targets i j * plain_log_softmax outputs i j))
           / INR n)).
Proof.
  intros Ho Ht Hn Hm.
  rewrite (softmax_unregularized_cost_rows _ _ _ _ Ho Hn Hm).
  rewrite (log_softmax_plain_tabulate _ _ _ Ho Hn).
  rewrite <- (tabulate_item _ _ targets Ht) at 1.
  rewrite binop_tabulate; cbn [bind].
  rewrite sum_axis1_tabulate, mean1_map_seq; reflexivity.
Qed.

(** X10. The shift by the row maximum cancels: on equal-shaped arrays
    with at least one row and one column the gradient of
    CrossEntropySoftmaxError is [(softmax(outputs) - targets) /
    batch_size] with the softmax [exp(o_ij) / sum_k exp(o_ik)], and the
    value without a penalty is minus the mean over the batch of the row
    sums of [targets * (o_ij - log(sum_k exp(o_ik)))]. *)
Theorem CrossEntropySoftmax_is_plain_softmax
    (self : CrossEntropySoftmaxError.t) (outputs targets : ndarray) :
  is_ndarray outputs -> is_ndarray targets ->
  shape outputs = shape targets ->
  (1 <= nrows outputs)%nat -> (1 <= ncols outputs)%nat ->
  CrossEntropySoftmaxError.grad self outputs targets
    = Ok (spec_plain_softmax_grad outputs targets)
  /\ (reads_params (regularizer (CrossEntropySoftmaxError.model self))
      = false ->
      CrossEntropySoftmaxError.__call__ self outputs targets
      = Ok (spec_plain_cross_entropy_softmax outputs targets)).
Proof.
  intros Ho Ht Hs Hn Hm.
  pose proof (is_ndarray_has_shape outputs Ho) as Ho'.
  pose proof (has_shape_same outputs targets Ho Ht Hs) as Ht'.
  split.
  - rewrite (softmax_grad_rows _ _ _ _ _ Ho' Hn Hm).
    rewrite (softmax_plain_tabulate _ _ _ Ho' Hn).
    rewrite <- (tabulate_item _ _ targets Ht') at 1.
    rewrite binop_tabulate; cbn [bind].
    rewrite ufunc_tabulate; reflexivity.
  - intros Hkind; rewrite (call_without_penalty _ _ _ Hkind).
    apply unregularized_cost_plain; assumption.
Qed.

Lemma CrossEntropySoftmax_is_plain_softmax_witness :
  let self := CrossEntropySoftmaxError.__init__ no_regularizer in
  CrossEntropySoftmaxError.grad self [[1; 2; 3]] [[0; 0; 1]]
    = Ok (spec_plain_softmax_grad [[1; 2; 3]] [[0; 0; 1]])
  /\ CrossEntropySoftmaxError.__call__ self [[1; 2; 3]] [[0; 0; 1]]
    = Ok (spec_plain_cross_entropy_softmax [[1; 2; 3]] [[0; 0; 1]]).
Proof.
  intros self.
  assert (H := CrossEntropySoftmax_is_plain_softmax self
                 [[1; 2; 3]] [[0; 0; 1]]).
  destruct H as [Hg Hv].
  - repeat constructor.
  - repeat constructor.
  - reflexivity.
  - simpl; lia.
  - simpl; lia.
  - split; [exact Hg | apply Hv; reflexivity].
Defined.

(** ** Fused and composed error functions *)








(** ** Targets given as a single row *)

Lemma broadcast_dim_one_l d : broadcast_dim 1 d = Some d.
Proof.
  unfold broadcast_dim; destruct (Nat.eqb_spec 1 d) as [<-|]; reflexivity.
Qed.

Lemma broadcast_to_row n m (r : list R) :
  length r = m -> broadcast_to n m [r] = repeat r n.
Proof.
  intros Hr; unfold broadcast_to; simpl ncols; simpl nrows.
  rewrite Hr; simpl (1 =? 1)%nat; cbv iota.
  destruct (Nat.eqb_spec m 1) as [E|]; [|reflexivity].
  simpl map; simpl hd; rewrite E, repeat_one_hd by congruence; reflexivity.
Qed.

Lemma has_shape_repeat n m (r : list R) :
  length r = m -> has_shape n m (repeat r n).
Proof.
  intros Hr; split; [apply repeat_length|].
  apply Forall_forall; intros x Hx; apply repeat_spec in Hx; congruence.
Qed.

Section SingleRow.

Variables (n m : nat) (a : ndarray) (r : list R).
Hypothesis Ha : has_shape n m a.
Hypothesis Hr : length r = m.
Hypothesis Hn : (1 <= n)%nat.

Lemma broadcast_to_has_shape : broadcast_to n m a = a.
Proof.
  rewrite <- (has_shape_ncols n m a Ha Hn).
  replace n with (nrows a) by apply Ha.
  apply broadcast_to_same; eapply has_shape_is_ndarray; exact Ha.
Qed.

Lemma binop_row_r (f : R -> R -> R) :
  binop f a [r] = binop f a (repeat r n).
Proof.
  rewrite (binop_has_shape f n m a (repeat r n) Ha (has_shape_repeat n m r Hr)).
  unfold binop; rewrite (has_shape_shape n m a Ha Hn).
  unfold shape at 1; simpl nrows; simpl ncols; rewrite Hr.
  unfold broadcast_shapes; simpl fst; simpl snd.
  rewrite broadcast_dim_one_r, broadcast_dim_refl.
  rewrite (broadcast_to_row n m r Hr), broadcast_to_has_shape.
  reflexivity.
Qed.

Lemma binop_row_l (f : R -> R -> R) :
  binop f [r] a = binop f (repeat r n) a.
Proof.
  rewrite (binop_has_shape f n m (repeat r n) a (has_shape_repeat n m r Hr) Ha).
  unfold binop; rewrite (has_shape_shape n m a Ha Hn).
  unfold shape at 1; simpl nrows; simpl ncols; rewrite Hr.
  unfold broadcast_shapes; simpl fst; simpl snd.
  rewrite broadcast_dim_one_l, broadcast_dim_refl.
  rewrite (broadcast_to_row n m r Hr), broadcast_to_has_shape.
  reflexivity.
Qed.

End SingleRow.

Lemma ufunc_row (f : R -> R) (r : list R) : ufunc f [r] = [map f r].
Proof. reflexivity. Qed.

Lemma ufunc_repeat (f : R -> R) (r : list R) n :
  ufunc f (repeat r n) = repeat (map f r) n.
Proof. apply map_repeat. Qed.

Lemma single_row_targets (error : error_function) n m
    (outputs : ndarray) (r : list R) :
  has_shape n m outputs -> length r = m -> (1 <= n)%nat ->
  value error outputs [r] = value error outputs (repeat r n)
  /\ gradient error outputs [r] = gradient error outputs (repeat r n).
Proof.
  intros Ho Hr Hn.
  assert (Hmap : forall f : R -> R, length (map f r) = m)
    by (intros; rewrite length_map; exact Hr).
  assert (Hu : forall f, has_shape n m (ufunc f outputs))
    by auto with shapes.
  destruct error; simpl.
  - unfold SumOfSquaredDiffsError.__call__, SumOfSquaredDiffsError.grad.
    rewrite (binop_row_r n m outputs r Ho Hr Hn); split; reflexivity.
  - unfold BinaryCrossEntropyError.__call__, BinaryCrossEntropyError.grad.
    cbv zeta.
    destruct (load_outputs_targets outputs [r]) as (-> & -> & ->).
    destruct (load_outputs_targets outputs (repeat r n)) as (-> & -> & ->).
    cbn [bind]; unfold np_log; rewrite !ufunc_row, !ufunc_repeat.
    rewrite (binop_row_l n m (ufunc ln outputs) r (Hu _) Hr Hn).
    rewrite (binop_row_l n m outputs r Ho Hr Hn).
    rewrite (binop_row_l n m (ufunc (fun x => 1 - x) outputs) _
               (Hu _) (Hmap _) Hn).
    split; reflexivity.
  - unfold BinaryCrossEntropySigmoidError.__call__,
      BinaryCrossEntropySigmoidError.grad; cbv zeta.
    pose proof (has_shape_sigmoid n m outputs Ho) as Hp.
    unfold np_log; rewrite !ufunc_row, !ufunc_repeat.
    rewrite (binop_row_l n m _ r (has_shape_ufunc _ _ ln _ Hp) Hr Hn).
    rewrite (binop_row_l n m _ _
               (has_shape_ufunc _ _ ln _
                  (has_shape_ufunc _ _ (fun x => 1 - x) _ Hp))
               (Hmap (fun x => 1 - x)) Hn).
    rewrite (binop_row_r n m _ r Hp Hr Hn).
    split; reflexivity.
  - unfold CrossEntropyError.__call__, CrossEntropyError.grad, np_log.
    rewrite (binop_row_l n m (ufunc ln outputs) r (Hu _) Hr Hn).
    rewrite (binop_row_l n m outputs r Ho Hr Hn).
    split; reflexivity.
  - destruct (Nat.eq_dec m 0) as [E|E].
    + unfold CrossEntropySoftmaxError.__call__,
        CrossEntropySoftmaxError.unregularized_cost,
        CrossEntropySoftmaxError.grad, max_axis1.
      rewrite (has_shape_ncols _ _ _ Ho Hn), E; split; reflexivity.
    + assert (Hm : (1 <= m)%nat) by lia.
      unfold CrossEntropySoftmaxError.__call__.
      rewrite !(softmax_unregularized_cost_rows _ _ _ _ Ho Hn Hm).
      rewrite !(softmax_grad_rows _ _ _ _ _ Ho Hn Hm).
      rewrite (binop_row_l n m _ r (has_shape_log_softmax _ _ _ Ho) Hr Hn).
      rewrite (binop_row_r n m _ r (has_shape_softmax _ _ _ Ho) Hr Hn).
      split; reflexivity.
Qed.

(** X13. Targets given as one row are not rejected: for every variant
    the value and the gradient are those for the targets repeated once
    per row of the outputs. *)
Theorem single_row_targets_are_repeated
    (error : error_function) (outputs : ndarray) (r : list R) :
  is_ndarray outputs -> length r = ncols outputs ->
  (1 <= nrows outputs)%nat ->
  value error outputs [r] = value error outputs (repeat r (nrows outputs))
  /\ gradient error outputs [r]
     = gradient error outputs (repeat r (nrows outputs)).
Proof.
  intros Ho Hr Hn.
  apply (single_row_targets error _ (ncols outputs));
    [apply is_ndarray_has_shape, Ho | exact Hr | exact Hn].
Qed.

Lemma single_row_targets_are_repeated_witness :
  let outputs := [[1; 2; 3]; [0; 1; 0]] in
  value SumOfSquaredDiffs outputs [[0; 0; 1]]
    = value SumOfSquaredDiffs outputs (repeat [0; 0; 1] 2)
  /\ gradient SumOfSquaredDiffs outputs [[0; 0; 1]]
     = gradient SumOfSquaredDiffs outputs (repeat [0; 0; 1] 2).
Proof.
  intros outputs.
  apply (single_row_targets_are_repeated SumOfSquaredDiffs outputs [0; 0; 1]).
  - repeat constructor.
  - reflexivity.
  - simpl; lia.
Defined.

(** ** BinaryCrossEntropySigmoidError with targets in the unit interval *)








(** ** One-hot targets and uniform outputs *)

Lemma big_sum_S n (f : nat -> R) : big_sum (S n) f = big_sum n f + f n.
Proof.
  unfold big_sum; rewrite seq_S, map_app, Rsum_app; simpl; lra.
Qed.

Lemma big_sum_zero n (f : nat -> R) :
  (forall i, (i < n)%nat -> f i = 0) -> big_sum n f = 0.
Proof.
  induction n as [|n IH]; intros H; [reflexivity|].
  rewrite big_sum_S, IH, H by (intros; try apply H; lia); lra.
Qed.

Lemma big_sum_indicator m (c : nat) (f : nat -> R) :
  (c < m)%nat ->
  big_sum m (fun j => (if (j =? c)%nat then 1 else 0) * f j) = f c.
Proof.
  induction m as [|m IH]; intros Hc; [lia|].
  rewrite big_sum_S; destruct (Nat.eqb_spec m c) as [->|Hne].
  - rewrite big_sum_zero; [lra|].
    intros j Hj; destruct (Nat.eqb_spec j c); [lia | lra].
  - rewrite IH by lia; lra.
Qed.

(** X15. For one-hot targets the value of CrossEntropySoftmaxError
    without a penalty is minus the mean over the batch of the
    log-probability [o_ic - log(sum_k exp(o_ik))] of the labelled
    column [c] of each row. *)
Theorem CrossEntropySoftmax_one_hot
    (self : CrossEntropySoftmaxError.t) (outputs : ndarray)
    (label : nat -> nat) :
  let n := nrows outputs in
  let m := ncols outputs in
  is_ndarray outputs -> (1 <= n)%nat ->
  (forall i, (i < n)%nat -> (label i < m)%nat) ->
  reads_params (regularizer (CrossEntropySoftmaxError.model self)) = false ->
  CrossEntropySoftmaxError.__call__ self outputs (one_hot n m label)
  = Ok (- (big_sum n (fun i => plain_log_softmax outputs i (label i))
           / INR n)).
Proof.
  intros n m Ho Hn Hlabel Hkind.
  pose proof (is_ndarray_has_shape outputs Ho) as Ho'; fold n m in Ho'.
  assert (Hm : (1 <= m)%nat) by (specialize (Hlabel 0%nat); lia).
  rewrite (call_without_penalty _ _ _ Hkind).
  rewrite (unregularized_cost_plain n m) by
    (assumption || apply has_shape_tabulate).
  do 3 f_equal; apply big_sum_ext; intros i Hi.
  rewrite <- (big_sum_indicator m (label i)) by auto.
  apply big_sum_ext; intros j Hj; unfold one_hot.
  rewrite item_tabulate by assumption; reflexivity.
Qed.

Lemma CrossEntropySoftmax_one_hot_witness :
  let self := CrossEntropySoftmaxError.__init__ no_regularizer in
  let outputs := [[1; 2; 3]; [0; 1; 0]] in
  CrossEntropySoftmaxError.__call__ self outputs
    (one_hot 2 3 (fun i => (2 - i)%nat))
  = Ok (- (big_sum 2
             (fun i => plain_log_softmax outputs i (2 - i)%nat) / INR 2)).
Proof.
  intros self outputs.
  apply (CrossEntropySoftmax_one_hot self outputs (fun i => (2 - i)%nat)).
  - repeat constructor.
  - simpl; lia.
  - intros i Hi; change (2 - i < 3)%nat; lia.
  - reflexivity.
Defined.

Lemma Rsum_repeat (x : R) (m : nat) : Rsum (repeat x m) = INR m * x.
Proof.
  induction m as [|m IH]; [simpl; lra|].
  rewrite S_INR; simpl; rewrite IH; lra.
Qed.

Lemma log_softmax_row_uniform (c : R) (m : nat) :
  (1 <= m)%nat ->
  log_softmax_row (repeat c m) = repeat (- ln (INR m)) m.
Proof.
  intros Hm; rewrite log_softmax_row_plain, !map_repeat, Rsum_repeat.
  assert (0 < INR m) by (apply lt_0_INR; lia).
  rewrite ln_mult, ln_exp by (assumption || apply exp_pos).
  f_equal; ring.
Qed.

Lemma Rsum_map2_mult_repeat (u : list R) (k : R) :
  Rsum (map2 Rmult u (repeat k (length u))) = Rsum u * k.
Proof.
  rewrite map2_repeat_r; apply Rsum_map_scal; reflexivity.
Qed.

Lemma mean1_constant (k : R) (v : vector) :
  Forall (fun x => x = k) v -> (1 <= length v)%nat -> mean1 v = k.
Proof.
  intros Hv Hlen; unfold mean1.
  assert (E : Rsum v = INR (length v) * k).
  { clear Hlen; induction Hv as [|x v -> _ IH]; [simpl; lra|].
    change (length (k :: v)) with (S (length v)).
    change (Rsum (k :: v)) with (k + Rsum v).
    rewrite S_INR, IH; lra. }
  assert (INR (length v) <> 0) by (apply not_0_INR; lia).
  rewrite E; field; assumption.
Qed.

(** X16. When all entries of each row of the outputs are equal (as for
    all-zero outputs) and every row of the targets sums to one, the
    value of CrossEntropySoftmaxError without a penalty is
    [log(output_dim)]. *)
Theorem CrossEntropySoftmax_uniform_outputs
    (self : CrossEntropySoftmaxError.t) (outputs targets : ndarray) :
  is_ndarray outputs -> is_ndarray targets ->
  shape outputs = shape targets ->
  (1 <= nrows outputs)%nat -> (1 <= ncols outputs)%nat ->
  Forall (fun r => exists c, r = repeat c (ncols outputs)) outputs ->
  Forall (fun r => Rsum r = 1) targets ->
  reads_params (regularizer (CrossEntropySoftmaxError.model self)) = false ->
  CrossEntropySoftmaxError.__call__ self outputs targets
  = Ok (ln (INR (ncols outputs))).
Proof.
  intros Ho Ht Hs Hn Hm Huni Hone Hkind.
  pose proof (is_ndarray_has_shape outputs Ho) as Ho'.
  pose proof (has_shape_same outputs targets Ho Ht Hs) as Ht'.
  rewrite (call_without_penalty _ _ _ Hkind).
  rewrite (softmax_unregularized_cost_rows _ _ _ _ Ho' Hn Hm).
  rewrite (binop_has_shape _ _ _ _ _ Ht' (has_shape_log_softmax _ _ _ Ho')).
  cbn [bind]; f_equal.
  rewrite (mean1_constant (- ln (INR (ncols outputs)))); [ring | |].
  - unfold sum_axis1; apply Forall_map, Forall_map2; intros tr lr Htr Hlr.
    apply in_map_iff in Hlr; destruct Hlr as (r & <- & Hr).
    rewrite Forall_forall in Huni, Hone.
    destruct (Huni r Hr) as [c ->].
    rewrite log_softmax_row_uniform by exact Hm.
    destruct Ht' as [_ Hrows]; rewrite Forall_forall in Hrows.
    rewrite <- (Hrows tr Htr) at 2.
    rewrite Rsum_map2_mult_repeat, (Hone tr Htr); ring.
  - unfold sum_axis1; rewrite length_map, map2_length.
    + destruct Ht' as [-> _]; exact Hn.
    + rewrite length_map; destruct Ho' as [-> _], Ht' as [-> _]; reflexivity.
Qed.

Lemma CrossEntropySoftmax_uniform_outputs_witness :
  CrossEntropySoftmaxError.__call__
    (CrossEntropySoftmaxError.__init__ no_regularizer)
    [[0; 0; 0]; [5; 5; 5]] [[0; 0; 1]; [1 / 2; 1 / 2; 0]]
  = Ok (ln (INR 3)).
Proof.
  apply (CrossEntropySoftmax_uniform_outputs
           (CrossEntropySoftmaxError.__init__ no_regularizer)
           [[0; 0; 0]; [5; 5; 5]] [[0; 0; 1]; [1 / 2; 1 / 2; 0]]).
  - repeat constructor.
  - repeat constructor.
  - reflexivity.
  - simpl; lia.
  - simpl; lia.
  - constructor; [exists 0; reflexivity|].
    constructor; [exists 5; reflexivity | constructor].
  - repeat constructor; simpl; lra.
  - reflexivity.
Defined.
